(** * Application form (src/App.tsx): a shallow embedding and its properties

    The component [App] of src/App.tsx is embedded as a state machine: the
    React state cells are the fields of a record, every event handler is a
    function on that record, and the one asynchronous handler, [handleSubmit],
    is split at its [await] into the part that runs when the form is submitted
    and the part that runs when the remote call settles.

    Events are taken one at a time: React re-renders between two discrete
    events, so each handler reads the state the previous one left.

    JavaScript strings are represented by [string], read as the UTF-8 bytes of
    the text (so the pound sign takes two bytes).  Strings with unpaired
    surrogates have no such representation and are outside the model. *)

From Stdlib Require Import NArith Ascii String List Lia.
From stdpp Require Import base option list gmap strings.

Local Open Scope N_scope.

(** ** JavaScript values and property reads *)

Module JS.

(** The values a property read of [amountMap] or [formData] can produce.
    [JsBuiltin k] is the member [k] of [Object.prototype] (a function, or
    the prototype object itself for [__proto__]). *)
Inductive js_value : Type :=
| JsUndefined
| JsString (s : string)
| JsBuiltin (key : string).

#[global] Instance js_value_eq_dec : EqDecision js_value.
Proof. solve_decision. Defined.

(** The property names every object literal inherits from
    [Object.prototype] (ECMA-262, with the Annex B members browsers have). *)
Definition Object_prototype_keys : list string :=
  [ "constructor"; "hasOwnProperty"; "isPrototypeOf"; "propertyIsEnumerable";
    "toLocaleString"; "toString"; "valueOf"; "__proto__";
    "__defineGetter__"; "__defineSetter__"; "__lookupGetter__";
    "__lookupSetter__" ].

(** [o[key]] for an object literal [o] whose own properties are strings:
    the own property if there is one, else the inherited member, else
    [undefined]. *)
Definition js_get (o : gmap string string) (key : string) : js_value :=
  match o !! key with
  | Some v => JsString v
  | None =>
      if bool_decide (key ∈ Object_prototype_keys) then JsBuiltin key
      else JsUndefined
  end.

(** [o.k] for a fixed name [k] that [Object.prototype] does not have. *)
Definition js_own (o : gmap string string) (key : string) : js_value :=
  match o !! key with
  | Some v => JsString v
  | None => JsUndefined
  end.

(** ToBoolean. *)
Definition truthy (v : js_value) : bool :=
  match v with
  | JsUndefined => false
  | JsString s => negb (bool_decide (s = ""))
  | JsBuiltin _ => true
  end.

(** [a || b]. *)
Definition js_or (a b : js_value) : js_value :=
  if truthy a then a else b.

(** ToString of a value that is a string or [undefined], as a property
    key, a template literal or [encodeURIComponent] applies it. *)
Definition ToString (v : option string) : string :=
  match v with
  | Some s => s
  | None => "undefined"
  end.

(** *** String.prototype methods *)

Fixpoint starts_with (sub s : string) : bool :=
  match sub, s with
  | EmptyString, _ => true
  | String a sub', String b s' => bool_decide (a = b) && starts_with sub' s'
  | String _ _, EmptyString => false
  end.

(** [s.includes(sub)] *)
Fixpoint includes (s sub : string) : bool :=
  starts_with sub s ||
  match s with
  | EmptyString => false
  | String _ s' => includes s' sub
  end.

Definition lower_ascii (c : ascii) : ascii :=
  let n := N_of_ascii c in
  if (65 <=? n) && (n <=? 90) then ascii_of_N (n + 32) else c.

(** [s.toLowerCase()].  Only the letters A-Z are mapped: on UTF-8 bytes the
    other mappings of Unicode change non-ASCII bytes only, with the two
    exceptions U+212A (to k) and U+0130 (to i and a combining dot); neither
    letter occurs in an extension the component looks for. *)
Fixpoint toLowerCase (s : string) : string :=
  match s with
  | EmptyString => EmptyString
  | String c s' => String (lower_ascii c) (toLowerCase s')
  end.

(** [s.split(sep)] for a separator of one character: the pieces between
    the occurrences of [sep], never an empty array. *)
Fixpoint split (sep : ascii) (s : string) : list string :=
  match s with
  | EmptyString => [EmptyString]
  | String c s' =>
      if bool_decide (c = sep) then EmptyString :: split sep s'
      else match split sep s' with
           | piece :: rest => String c piece :: rest
           | [] => [String c EmptyString]
           end
  end.

(** [a.pop()]: the last element, [undefined] on an empty array. *)
Definition pop (a : list string) : option string := last a.

(** [a.includes(x)] on an array of strings. *)
Definition array_includes (a : list string) (x : string) : bool :=
  bool_decide (x ∈ a).

(** [pad.repeat(...)] cut to [n] characters, as [padStart] builds its
    filler; [cur] is what is left of the current copy of [pad]. *)
Fixpoint filler (n : nat) (pad cur : string) : string :=
  match n with
  | O => EmptyString
  | S n' =>
      match cur with
      | String c cur' => String c (filler n' pad cur')
      | EmptyString =>
          match pad with
          | String c pad' => String c (filler n' pad pad')
          | EmptyString => EmptyString
          end
      end
  end.

(** [s.padStart(targetLength, pad)] *)
Definition padStart (s : string) (targetLength : nat) (pad : string) : string :=
  if (targetLength <=? String.length s)%nat then s
  else if bool_decide (pad = "") then s
  else filler (targetLength - String.length s) pad pad +:+ s.

(** *** Number.prototype.toString on a non-negative integer *)

Definition digit (d : N) : ascii := ascii_of_N (48 + d).

Fixpoint toString_fuel (fuel : nat) (n : N) : string :=
  match fuel with
  | O => EmptyString
  | S fuel' =>
      if n <? 10 then String (digit n) EmptyString
      else toString_fuel fuel' (n / 10) +:+ String (digit (n mod 10)) EmptyString
  end.

(** One round of [toString_fuel] per binary digit is more than the decimal
    digits need (lemma [toString_unfold]). *)
Definition toString (n : N) : string :=
  toString_fuel (S (N.to_nat (N.log2 n))) n.

(** *** encodeURIComponent *)

Definition is_unreserved (c : ascii) : bool :=
  let n := N_of_ascii c in
  ((65 <=? n) && (n <=? 90)) || ((97 <=? n) && (n <=? 122))
  || ((48 <=? n) && (n <=? 57))
  || bool_decide (c ∈ ["-"; "_"; "."; "!"; "~"; "*"; "'"; "("; ")"]%char).

Definition hex_digit (d : N) : ascii :=
  if d <? 10 then ascii_of_N (48 + d) else ascii_of_N (55 + d).

Definition percent_encode (c : ascii) : string :=
  let n := N_of_ascii c in
  String "%"%char (String (hex_digit (n / 16)) (String (hex_digit (n mod 16)) EmptyString)).

(** [encodeURIComponent(s)]: every byte of the UTF-8 text other than the
    unreserved characters becomes a percent escape. *)
Fixpoint encodeURIComponent (s : string) : string :=
  match s with
  | EmptyString => EmptyString
  | String c s' =>
      (if is_unreserved c then String c EmptyString else percent_encode c)
      +:+ encodeURIComponent s'
  end.

End JS.
Import JS.

(** ** The component *)

(** [File]: the two properties of a DOM file the handlers read. *)
Record File : Type := { file_name : string; file_size : N }.

#[global] Instance File_eq_dec : EqDecision File.
Proof. solve_decision. Defined.

(** [createContact.attributes] *)
Record Attributes : Type := {
  FIRSTNAME : js_value;
  LASTNAME : js_value;
  HOURS : js_value;
  AMOUNT : js_value;
  UNIQUE : string
}.

(** The [SibApiV3Sdk.CreateContact] object handed to the remote API. *)
Record CreateContact : Type := {
  email : js_value;
  attributes : Attributes;
  listIds : list N
}.

(** What the handler reads of a rejected call: [apiError.response?.text]. *)
Record Response : Type := { text : option string }.
Record ApiError : Type := { response : option Response }.

(** A value thrown inside [handleSubmit]: an [Error] instance with its
    message, or anything else. *)
Inductive js_thrown : Type :=
| ErrorInstance (message : string)
| OtherValue.

Inductive completion : Type :=
| Normal
| Throw (t : js_thrown).

(** What [JSON.parse(text).message] evaluates to. *)
Inductive json_message : Type :=
| ParseThrows (message : string)
    (* JSON.parse raises a SyntaxError, or yields null and the read raises
       a TypeError *)
| MessageAbsent
    (* the parsed value has no message property *)
| MessageString (m : string)
    (* the message property is the string m *)
| MessageOther (shown : string).
    (* the message property is not a string; shown is its ToString *)

(** The behaviour of the JavaScript engine the handlers rely on and the
    source does not fix. *)
Record engine : Type := {
  JSON_parse_message : string -> json_message;
  (* the message of the TypeError raised by undefined.includes(...) *)
  TypeError_includes : string
}.

(** The state cells of [App], followed by what the handlers do to the world
    outside the component. *)
Record state : Type := {
  formData : gmap string string;
  isSubmitting : bool;
  error : option string;
  uploadedFile : option File;
  isDragging : bool;
  (* createContact calls issued so far, oldest first *)
  api_calls : list CreateContact;
  (* the formData captured by each handleSubmit suspended at its await *)
  in_flight : list (gmap string string);
  (* the last value assigned to window.location.href *)
  location_href : option string
}.

Definition field_names : list string :=
  [ "firstName"; "lastName"; "email"; "over18"; "dataEntryExperience";
    "experienceDescription"; "accessibility"; "hoursPerWeek"; "hasComputer";
    "rightToWork"; "criminalConvictions"; "dbsCheck"; "englishFluency";
    "otherLanguages"; "selfDescription" ].

(** The state at mount: every field is the empty string. *)
Definition initial_formData : gmap string string :=
  list_to_map ((fun k => (k, "")) <$> field_names).

Definition initial_state : state := {|
  formData := initial_formData;
  isSubmitting := false;
  error := None;
  uploadedFile := None;
  isDragging := false;
  api_calls := [];
  in_flight := [];
  location_href := None
|}.

Definition setFormData (f : gmap string string -> gmap string string) (st : state) : state :=
  {| formData := f (formData st); isSubmitting := isSubmitting st;
     error := error st; uploadedFile := uploadedFile st;
     isDragging := isDragging st; api_calls := api_calls st;
     in_flight := in_flight st; location_href := location_href st |}.

Definition setIsSubmitting (b : bool) (st : state) : state :=
  {| formData := formData st; isSubmitting := b;
     error := error st; uploadedFile := uploadedFile st;
     isDragging := isDragging st; api_calls := api_calls st;
     in_flight := in_flight st; location_href := location_href st |}.

Definition setError (e : option string) (st : state) : state :=
  {| formData := formData st; isSubmitting := isSubmitting st;
     error := e; uploadedFile := uploadedFile st;
     isDragging := isDragging st; api_calls := api_calls st;
     in_flight := in_flight st; location_href := location_href st |}.

Definition setUploadedFile (f : option File) (st : state) : state :=
  {| formData := formData st; isSubmitting := isSubmitting st;
     error := error st; uploadedFile := f;
     isDragging := isDragging st; api_calls := api_calls st;
     in_flight := in_flight st; location_href := location_href st |}.

Definition setIsDragging (b : bool) (st : state) : state :=
  {| formData := formData st; isSubmitting := isSubmitting st;
     error := error st; uploadedFile := uploadedFile st;
     isDragging := b; api_calls := api_calls st;
     in_flight := in_flight st; location_href := location_href st |}.

(** [apiInstance.createContact(c)]: the call is issued and the handler is
    suspended with the [formData] of its closure. *)
Definition call_createContact (c : CreateContact) (st : state) : state :=
  {| formData := formData st; isSubmitting := isSubmitting st;
     error := error st; uploadedFile := uploadedFile st;
     isDragging := isDragging st; api_calls := api_calls st ++ [c];
     in_flight := in_flight st ++ [formData st]; location_href := location_href st |}.

Definition settle (rest : list (gmap string string)) (st : state) : state :=
  {| formData := formData st; isSubmitting := isSubmitting st;
     error := error st; uploadedFile := uploadedFile st;
     isDragging := isDragging st; api_calls := api_calls st;
     in_flight := rest; location_href := location_href st |}.

Definition set_location_href (url : string) (st : state) : state :=
  {| formData := formData st; isSubmitting := isSubmitting st;
     error := error st; uploadedFile := uploadedFile st;
     isDragging := isDragging st; api_calls := api_calls st;
     in_flight := in_flight st; location_href := Some url |}.

(** *** Pure helpers of the component *)

(** [generateReferenceNumber], with [draw] the value of
    [Math.floor(Math.random() * 100000)]. *)
Definition generateReferenceNumber (draw : N) : string :=
  let randomNum := padStart (toString draw) 5 "0" in
  "EDI" +:+ randomNum.

Definition amountMap : gmap string string :=
  <["10" := "£165"]> (<["20" := "£330"]> (<["30" := "£495"]>
    (<["40" := "£660"]> (<["50" := "£825"]> ∅)))).

Definition getAmountFromHours (hours : string) : js_value :=
  js_or (js_get amountMap hours) (JsString "").

(** *** Input and file handlers *)

Definition handleInputChange (name value : string) (st : state) : state :=
  setError None (setFormData (fun prev => <[name := value]> prev) st).

Definition max_file_size : N := 10 * 1024 * 1024.

Definition fileType (f : File) : option string :=
  pop (split "."%char (toLowerCase (file_name f))).

Definition validateAndSetFile (file : File) (st : state) : state :=
  if max_file_size <? file_size file then
    setUploadedFile None (setError (Some "File size must be less than 10MB") st)
  else if negb (array_includes ["pdf"; "doc"; "docx"] (default "" (fileType file))) then
    setUploadedFile None (setError (Some "Only PDF, DOC, or DOCX files are allowed") st)
  else
    setError None (setUploadedFile (Some file) st).

(** [file] is [e.target.files?.[0]]. *)
Definition handleFileChange (file : option File) (st : state) : state :=
  match file with
  | Some f => validateAndSetFile f st
  | None => st
  end.

Definition handleDragEnter (st : state) : state := setIsDragging true st.
Definition handleDragLeave (st : state) : state := setIsDragging false st.
Definition handleDragOver (st : state) : state := st.

(** [file] is [e.dataTransfer.files?.[0]]. *)
Definition handleDrop (file : option File) (st : state) : state :=
  let st := setIsDragging false st in
  match file with
  | Some f => validateAndSetFile f st
  | None => st
  end.

(** *** Validation and submission *)

Definition requiredFields : list string :=
  [ "firstName"; "lastName"; "email"; "over18"; "dataEntryExperience";
    "accessibility"; "hoursPerWeek"; "hasComputer"; "rightToWork";
    "criminalConvictions"; "dbsCheck"; "englishFluency"; "selfDescription" ].

Definition email_error : string := "Please enter a valid email address".
Definition required_error : string := "Please fill in all required fields".
Definition connectivity_error : string :=
  "Unable to connect to the server. Please check your internet connection and try again.".
Definition fallback_error : string :=
  "There was an error submitting your application. Please try again.".
Definition confirmation_url : string :=
  "https://exactdatainput.uk/application-submitted?email=".

Section Submit.

Variable E : engine.

Definition validateForm (fd : gmap string string) : completion :=
  match fd !! "email" with
  | None => Throw (ErrorInstance (TypeError_includes E))
  | Some e =>
      if negb (includes e "@") then Throw (ErrorInstance email_error)
      else
        let missingFields :=
          List.filter (fun field => negb (truthy (js_get fd field))) requiredFields in
        if (0 <? length missingFields)%nat then Throw (ErrorInstance required_error)
        else Normal
  end.

(** The [catch (error)] clause at the top level of [handleSubmit]. *)
Definition catch_submit (t : js_thrown) (st : state) : state :=
  match t with
  | ErrorInstance m => setError (Some m) st
  | OtherValue => setError (Some fallback_error) st
  end.

(** The object built between validation and the call.  Fetching the SDK
    client and storing the API key in it touch nothing of the state. *)
Definition build_createContact (fd : gmap string string) (draw : N) : CreateContact :=
  let referenceNumber := generateReferenceNumber draw in
  {| email := js_own fd "email";
     attributes :=
       {| FIRSTNAME := js_own fd "firstName";
          LASTNAME := js_own fd "lastName";
          HOURS := js_own fd "hoursPerWeek";
          AMOUNT := getAmountFromHours (ToString (fd !! "hoursPerWeek"));
          UNIQUE := referenceNumber |};
     listIds := [7] |}.

(** [handleSubmit] up to its [await]: the latch test, validation and the
    call; a validation failure runs the [catch] and [finally] clauses at
    once. *)
Definition handleSubmit (draw : N) (st : state) : state :=
  if isSubmitting st then st
  else
    let st := setError None (setIsSubmitting true st) in
    match validateForm (formData st) with
    | Throw t => setIsSubmitting false (catch_submit t st)
    | Normal => call_createContact (build_createContact (formData st) draw) st
    end.

(** [handleSubmit] from its [await] on, when the call succeeded.  The call
    that settles is the oldest one in flight; reachable states have at most
    one (lemma [reachable_latch_invariant]). *)
Definition handleSubmit_resolved (st : state) : state :=
  match in_flight st with
  | [] => st
  | fd :: rest =>
      let st := settle rest st in
      let st :=
        set_location_href
          (confirmation_url +:+ encodeURIComponent (ToString (fd !! "email"))) st in
      setIsSubmitting false st
  end.

Definition response_text (apiError : ApiError) : option string :=
  match response apiError with
  | Some r => text r
  | None => None
  end.

(** The [catch (apiError)] clause: it always throws, either the [Error] it
    builds or what [JSON.parse] raised. *)
Definition catch_apiError (apiError : ApiError) : js_thrown :=
  match response_text apiError with
  | Some t =>
      if bool_decide (t = "") then ErrorInstance connectivity_error
      else
        match JSON_parse_message E t with
        | ParseThrows m => ErrorInstance m
        | MessageAbsent => ErrorInstance ""
        | MessageString m => ErrorInstance m
        | MessageOther shown => ErrorInstance shown
        end
  | None => ErrorInstance connectivity_error
  end.

(** [handleSubmit] from its [await] on, when the call failed. *)
Definition handleSubmit_rejected (apiError : ApiError) (st : state) : state :=
  match in_flight st with
  | [] => st
  | _ :: rest =>
      let st := settle rest st in
      setIsSubmitting false (catch_submit (catch_apiError apiError) st)
  end.

(** *** Events *)

Inductive event : Type :=
| InputChange (name value : string)
| FileChange (file : option File)
| DragEnter
| DragLeave
| DragOver
| Drop (file : option File)
| RemoveFile
| Submit (draw : N)
| ApiResolved
| ApiRejected (apiError : ApiError).

Definition step (st : state) (ev : event) : state :=
  match ev with
  | InputChange name value => handleInputChange name value st
  | FileChange file => handleFileChange file st
  | DragEnter => handleDragEnter st
  | DragLeave => handleDragLeave st
  | DragOver => handleDragOver st
  | Drop file => handleDrop file st
  | RemoveFile => setUploadedFile None st
  | Submit draw => handleSubmit draw st
  | ApiResolved => handleSubmit_resolved st
  | ApiRejected apiError => handleSubmit_rejected apiError st
  end.

Definition run (st : state) (evs : list event) : state := fold_left step evs st.

(** Whether an event is the settling of the remote call. *)
Definition is_settle (ev : event) : bool :=
  match ev with
  | ApiResolved | ApiRejected _ => true
  | _ => false
  end.

End Submit.

(** ** Reference notions used to state the properties *)

(** The decimal expansion of [n] on exactly [k] digits, most significant
    first (the digits of [n] modulo 10^k). *)
Fixpoint fixed_width (k : nat) (n : N) : string :=
  match k with
  | O => EmptyString
  | S k' => fixed_width k' (n / 10) +:+ String (digit (n mod 10)) EmptyString
  end.

Definition is_decimal_digit (c : ascii) : bool :=
  let n := N_of_ascii c in (48 <=? n) && (n <=? 57).

Fixpoint all_decimal_digits (s : string) : bool :=
  match s with
  | EmptyString => true
  | String c s' => is_decimal_digit c && all_decimal_digits s'
  end.

(** The pattern [EDI] followed by exactly five decimal digits. *)
Definition matches_reference_pattern (s : string) : bool :=
  match s with
  | String "E" (String "D" (String "I" rest)) =>
      (String.length rest =? 5)%nat && all_decimal_digits rest
  | _ => false
  end.

(** [c] occurs in [s]. *)
Definition has_char (c : ascii) (s : string) : Prop :=
  c ∈ list_ascii_of_string s.

#[global] Instance has_char_dec (c : ascii) (s : string) : Decision (has_char c s).
Proof. unfold has_char. apply _. Defined.

(** What follows the last [sep] of [s]; all of [s] when it has no [sep]. *)
Fixpoint after_last (sep : ascii) (s : string) : string :=
  match s with
  | EmptyString => EmptyString
  | String c s' =>
      if bool_decide (has_char sep s') then after_last sep s'
      else if bool_decide (c = sep) then s'
      else s
  end.

(** The extension of a file as the specification describes it. *)
Definition extension (f : File) : string :=
  after_last "."%char (toLowerCase (file_name f)).

(** A file the specification lets through: at most 10 MB, with one of the
    three extensions. *)
Definition acceptable (f : File) : Prop :=
  file_size f <= 10 * 1024 * 1024 /\ extension f ∈ ["pdf"; "doc"; "docx"].

#[global] Instance acceptable_dec (f : File) : Decision (acceptable f).
Proof. unfold acceptable. apply _. Defined.

(** The states the component can be in: those some sequence of events
    leads to from the state at mount. *)
Definition reachable (E : engine) (st : state) : Prop :=
  exists evs : list event, st = run E initial_state evs.

(** What holds of every reachable state: the latch is set exactly while one
    call is in flight, and no field of the form has been lost. *)
Definition latch_invariant (st : state) : Prop :=
  (if isSubmitting st then exists fd, in_flight st = [fd] else in_flight st = [])
  /\ (forall k : string, k ∈ field_names -> is_Some (formData st !! k)).

(** Events other than the settling of the remote call. *)
Definition no_settle (evs : list event) : Prop :=
  Forall (fun ev => is_settle ev = false) evs.

(** ** Sample data *)

Definition double_quote : string := String (ascii_of_N 34) EmptyString.

(** The body of a failure response of the remote API. *)
Definition sample_body : string :=
  "{" +:+ double_quote +:+ "message" +:+ double_quote +:+ ":"
  +:+ double_quote +:+ "Contact already exist" +:+ double_quote +:+ "}".

(** An engine that parses [sample_body] and rejects any other text. *)
Definition sample_engine : engine := {|
  JSON_parse_message := fun t =>
    if bool_decide (t = sample_body) then MessageString "Contact already exist"
    else ParseThrows "Unexpected token";
  TypeError_includes := "Cannot read properties of undefined (reading 'includes')"
|}.

(** The events of an applicant filling in every required field. *)
Definition fill_form : list event :=
  [ InputChange "firstName" "Jane"; InputChange "lastName" "Doe";
    InputChange "email" "jane+doe@example.org"; InputChange "over18" "yes";
    InputChange "dataEntryExperience" "no"; InputChange "accessibility" "no";
    InputChange "hoursPerWeek" "20"; InputChange "hasComputer" "yes";
    InputChange "rightToWork" "yes"; InputChange "criminalConvictions" "no";
    InputChange "dbsCheck" "yes";
    InputChange "englishFluency" "Yes, I'm a native speaker.";
    InputChange "selfDescription" "Careful and quick." ].

Definition filled_state : state := run sample_engine initial_state fill_form.

(** ** What the markup shows *)

(** [{error && (...)}]: the banner is rendered for a message that is neither
    [null] nor empty. *)
Definition banner (st : state) : option string :=
  match error st with
  | Some m => if bool_decide (m = "") then None else Some m
  | None => None
  end.

(** The hours offered, [[10, 20, 30, 40, 50].map(...)]: one radio input per
    number, its [value] the number rendered as a string. *)
Definition hours_options : list N := [10; 20; 30; 40; 50].

Definition hours_value (hours : N) : string := toString hours.

(** ** Further reference notions *)

Definition is_input_change (ev : event) : bool :=
  match ev with
  | InputChange _ _ => true
  | _ => false
  end.

Definition is_resolve (ev : event) : bool :=
  match ev with
  | ApiResolved => true
  | _ => false
  end.

Definition is_reject (ev : event) : bool :=
  match ev with
  | ApiRejected _ => true
  | _ => false
  end.

(** The number of events of [evs] that settle a call. *)
Definition count_settle (evs : list event) : nat :=
  length (List.filter is_settle evs).

(** A request built from a form that passed validation. *)
Definition valid_call (c : CreateContact) : Prop :=
  exists e fn ln h : string,
    email c = JsString e /\ has_char "@" e
    /\ FIRSTNAME (attributes c) = JsString fn /\ fn <> ""
    /\ LASTNAME (attributes c) = JsString ln /\ ln <> ""
    /\ HOURS (attributes c) = JsString h /\ h <> ""
    /\ AMOUNT (attributes c) = getAmountFromHours h
    /\ starts_with "EDI" (UNIQUE (attributes c)) = true
    /\ listIds c = [7].

(** An address the component may send the browser to. *)
Definition confirmation_address (url : string) : Prop :=
  exists e : string,
    has_char "@" e /\ url = confirmation_url +:+ encodeURIComponent e.

(** What every reachable state satisfies beyond the latch: the calls issued
    were built from valid forms, the forms captured by the calls in flight
    are valid, the browser has been sent nowhere but to a confirmation
    address, and the stored file passed the file validation. *)
Definition submission_invariant (E : engine) (st : state) : Prop :=
  Forall valid_call (api_calls st)
  /\ Forall (fun fd => validateForm E fd = Normal) (in_flight st)
  /\ (forall url, location_href st = Some url -> confirmation_address url)
  /\ (forall f, uploadedFile st = Some f -> acceptable f).

(** A character that needs no escape in a query string, or the percent sign
    of an escape. *)
Definition url_safe (c : ascii) : bool :=
  is_unreserved c || bool_decide (c = "%"%char).

Fixpoint all_url_safe (s : string) : bool :=
  match s with
  | EmptyString => true
  | String c s' => url_safe c && all_url_safe s'
  end.

(** Reading back one character of an encoded string: a percent escape or a
    character standing for itself. *)
Definition unhex (c : ascii) : N :=
  let n := N_of_ascii c in
  if n <=? 57 then n - 48 else n - 55.

Definition decode_step (s : string) : option (ascii * string) :=
  match s with
  | EmptyString => None
  | String c r =>
      if bool_decide (c = "%"%char) then
        match r with
        | String a (String b r') => Some (ascii_of_N (16 * unhex a + unhex b), r')
        | _ => None
        end
      else Some (c, r)
  end.

(** What [encodeURIComponent] makes of one character. *)
Definition encode_char (c : ascii) : string :=
  if is_unreserved c then String c EmptyString else percent_encode c.

Example includes_at : includes "a@b.co" "@" = true.
Proof. reflexivity. Qed.
Example split_ex : split "."%char "my.cv.pdf" = ["my"; "cv"; "pdf"].
Proof. reflexivity. Qed.
Example split_ex2 : split "."%char "a." = ["a"; ""].
Proof. reflexivity. Qed.
Example pad_ex : padStart (toString 42) 5 "0" = "00042".
Proof. reflexivity. Qed.
Example pad_ex2 : padStart "7" 6 "ab" = "ababa7".
Proof. reflexivity. Qed.
Example toString_ex : toString 99999 = "99999" /\ toString 0 = "0" /\ toString 100000 = "100000".
Proof. repeat split; reflexivity. Qed.
Example enc_ex : encodeURIComponent "a+b@x.org" = "a%2Bb%40x.org".
Proof. reflexivity. Qed.
Example enc_ex2 : encodeURIComponent "£" = "%C2%A3".
Proof. reflexivity. Qed.

(** * Properties *)

(** Closed decidable facts are settled by evaluation. *)
Ltac by_decide := eapply bool_decide_unpack; vm_compute; exact I.

(** ** Decimal rendering and the reference code *)

Lemma log2_div10_lt (n : N) : 10 <= n -> N.log2 (n / 10) < N.log2 n.
Proof.
  intros Hn.
  assert (Hle : n / 10 <= n / 2) by (apply N.div_le_compat_l; lia).
  assert (Hm : 0 < n / 2) by (apply N.div_str_pos; lia).
  pose proof (N.log2_le_mono _ _ Hle) as H1.
  pose proof (N.log2_double _ Hm) as H2.
  assert (H3 : 2 * (n / 2) <= n) by (apply N.Div0.mul_div_le).
  pose proof (N.log2_le_mono _ _ H3) as H4.
  lia.
Qed.

Lemma toString_fuel_enough (f1 : nat) :
  forall (f2 : nat) (n : N),
    (N.to_nat (N.log2 n) < f1)%nat -> (N.to_nat (N.log2 n) < f2)%nat ->
    toString_fuel f1 n = toString_fuel f2 n.
Proof.
  induction f1 as [|f1 IH]; intros f2 n H1 H2; [lia|].
  destruct f2 as [|f2]; [lia|].
  simpl. destruct (N.ltb_spec n 10) as [Hlt|Hge]; [reflexivity|].
  pose proof (log2_div10_lt n Hge) as Hlog.
  f_equal. apply IH; lia.
Qed.

(** The defining equation of the decimal rendering. *)
Lemma toString_unfold (n : N) :
  toString n =
    if n <? 10 then String (digit n) EmptyString
    else toString (n / 10) +:+ String (digit (n mod 10)) EmptyString.
Proof.
  unfold toString at 1. simpl.
  destruct (N.ltb_spec n 10) as [Hlt|Hge]; [reflexivity|].
  f_equal. unfold toString.
  pose proof (log2_div10_lt n Hge).
  apply toString_fuel_enough; lia.
Qed.

Lemma app_cons (a : ascii) (s t : string) : String a s +:+ t = String a (s +:+ t).
Proof. reflexivity. Qed.

Lemma length_snoc (s : string) (c : ascii) :
  String.length (s +:+ String c EmptyString) = S (String.length s).
Proof.
  induction s as [|a s IH]; [reflexivity|].
  rewrite app_cons. simpl. f_equal. exact IH.
Qed.

Lemma app_assoc_string (s1 s2 s3 : string) :
  (s1 +:+ s2) +:+ s3 = s1 +:+ (s2 +:+ s3).
Proof.
  induction s1 as [|a s1 IH]; [reflexivity|].
  rewrite !app_cons. f_equal. exact IH.
Qed.

(** Padding a string that ends in [c] pads what comes before [c]. *)
Lemma padStart_snoc (s : string) (c : ascii) (k : nat) (pad : string) :
  padStart (s +:+ String c EmptyString) (S k) pad =
  padStart s k pad +:+ String c EmptyString.
Proof.
  unfold padStart. rewrite length_snoc.
  change (S k <=? S (String.length s))%nat with (k <=? String.length s)%nat.
  destruct (k <=? String.length s)%nat; [reflexivity|].
  destruct (bool_decide (pad = "")); [reflexivity|].
  change (S k - S (String.length s))%nat with (k - String.length s)%nat.
  symmetry. apply app_assoc_string.
Qed.

Lemma fixed_width_zero_cons (k : nat) :
  String "0" (fixed_width k 0) = fixed_width k 0 +:+ "0".
Proof.
  induction k as [|k IH]; [reflexivity|].
  change (fixed_width (S k) 0) with (fixed_width k 0 +:+ "0").
  rewrite <- IH at 2. reflexivity.
Qed.

Lemma filler_zeros (k : nat) : filler k "0" "" = fixed_width k 0.
Proof.
  induction k as [|k IH]; [reflexivity|].
  change (filler (S k) "0" "") with (String "0" (filler k "0" "")).
  rewrite IH. apply fixed_width_zero_cons.
Qed.

Lemma app_empty_r (s : string) : s +:+ "" = s.
Proof.
  induction s as [|a s IH]; [reflexivity|].
  rewrite app_cons. f_equal. exact IH.
Qed.

Lemma padStart_empty (k : nat) : padStart "" (S k) "0" = fixed_width (S k) 0.
Proof.
  unfold padStart.
  change (S k <=? String.length "")%nat with false.
  change (bool_decide ("0" = "")) with false. cbv iota.
  change (filler (S k - String.length "") "0" "0")
    with (String "0" (filler k "0" "")).
  rewrite app_empty_r, filler_zeros, fixed_width_zero_cons. reflexivity.
Qed.

(** Zero-padding the decimal rendering of [n] to width [k] gives the
    expansion of [n] on [k] digits, when [n] has at most [k] digits. *)
Lemma padStart_toString (k : nat) :
  forall n : N, n < 10 ^ N.of_nat (S k) ->
    padStart (toString n) (S k) "0" = fixed_width (S k) n.
Proof.
  induction k as [|k IH]; intros n Hn.
  - rewrite toString_unfold.
    change (10 ^ N.of_nat 1) with 10 in Hn.
    destruct (N.ltb_spec n 10) as [_|Hge]; [|lia].
    change (fixed_width 1 n) with ("" +:+ String (digit (n mod 10)) "").
    rewrite N.mod_small by lia. reflexivity.
  - rewrite toString_unfold.
    change (fixed_width (S (S k)) n)
      with (fixed_width (S k) (n / 10) +:+ String (digit (n mod 10)) "").
    destruct (N.ltb_spec n 10) as [Hlt|Hge].
    + rewrite (N.mod_small n 10) by lia.
      rewrite (N.div_small n 10) by lia.
      change (String (digit n) "") with ("" +:+ String (digit n) "").
      rewrite padStart_snoc. f_equal.
      apply padStart_empty.
    + rewrite padStart_snoc. f_equal.
      apply IH.
      replace (N.of_nat (S (S k))) with (N.succ (N.of_nat (S k))) in Hn by lia.
      rewrite N.pow_succ_r' in Hn.
      apply N.Div0.div_lt_upper_bound. lia.
Qed.

Lemma digit_is_decimal (d : N) : d < 10 -> is_decimal_digit (digit d) = true.
Proof.
  intros Hd. unfold is_decimal_digit, digit.
  rewrite N_ascii_embedding by lia.
  apply andb_true_intro; split; apply N.leb_le; lia.
Qed.

Lemma all_decimal_digits_snoc (s : string) (c : ascii) :
  all_decimal_digits (s +:+ String c "") =
  all_decimal_digits s && is_decimal_digit c.
Proof.
  induction s as [|a s IH].
  - simpl. destruct (is_decimal_digit c); reflexivity.
  - rewrite app_cons. simpl. rewrite IH. apply andb_assoc.
Qed.

Lemma fixed_width_length (k : nat) (n : N) : String.length (fixed_width k n) = k.
Proof.
  revert n. induction k as [|k IH]; intros n; [reflexivity|].
  change (fixed_width (S k) n)
    with (fixed_width k (n / 10) +:+ String (digit (n mod 10)) "").
  rewrite length_snoc, IH. reflexivity.
Qed.

Lemma fixed_width_digits (k : nat) (n : N) : all_decimal_digits (fixed_width k n) = true.
Proof.
  revert n. induction k as [|k IH]; intros n; [reflexivity|].
  change (fixed_width (S k) n)
    with (fixed_width k (n / 10) +:+ String (digit (n mod 10)) "").
  rewrite all_decimal_digits_snoc, IH, digit_is_decimal; [reflexivity|].
  apply N.mod_lt. lia.
Qed.

Lemma matches_reference_pattern_EDI (rest : string) :
  matches_reference_pattern (String "E" (String "D" (String "I" rest))) =
  (String.length rest =? 5)%nat && all_decimal_digits rest.
Proof. reflexivity. Qed.

(** C5. For every draw in [0, 100000) the reference code is [EDI] followed
    by the draw written on exactly five decimal digits, zero-padded on the
    left; in particular it matches the pattern EDI + five digits. *)
Theorem generateReferenceNumber_format (draw : N) :
  draw < 100000 ->
  generateReferenceNumber draw = "EDI" +:+ fixed_width 5 draw
  /\ String.length (generateReferenceNumber draw) = 8%nat
  /\ matches_reference_pattern (generateReferenceNumber draw) = true.
Proof.
  intros Hdraw.
  assert (Heq : generateReferenceNumber draw = "EDI" +:+ fixed_width 5 draw).
  { unfold generateReferenceNumber. cbv zeta. f_equal.
    apply (padStart_toString 4). exact Hdraw. }
  rewrite Heq. split; [reflexivity|].
  change ("EDI" +:+ fixed_width 5 draw)
    with (String "E" (String "D" (String "I" (fixed_width 5 draw)))).
  split.
  - change (S (S (S (String.length (fixed_width 5 draw)))) = 8%nat).
    rewrite fixed_width_length. reflexivity.
  - rewrite matches_reference_pattern_EDI, fixed_width_length, fixed_width_digits.
    reflexivity.
Qed.

Lemma generateReferenceNumber_format_witness :
  42 < 100000 /\ generateReferenceNumber 42 = "EDI00042".
Proof.
  split; [lia|].
  exact (proj1 (generateReferenceNumber_format 42 ltac:(lia))).
Defined.

(** ** The amount table *)

Lemma getAmountFromHours_table :
  getAmountFromHours "10" = JsString "£165"
  /\ getAmountFromHours "20" = JsString "£330"
  /\ getAmountFromHours "30" = JsString "£495"
  /\ getAmountFromHours "40" = JsString "£660"
  /\ getAmountFromHours "50" = JsString "£825".
Proof. repeat split; reflexivity. Qed.

Lemma amountMap_lookup_other (hours : string) :
  hours ∉ ["10"; "20"; "30"; "40"; "50"] -> amountMap !! hours = None.
Proof.
  intros Hnot. unfold amountMap.
  rewrite !lookup_insert_ne; [apply lookup_empty|..];
    intros <-; apply Hnot; set_solver.
Qed.

(** A string that is neither a key of the table nor the name of a member of
    [Object.prototype] has the empty amount. *)
Lemma getAmountFromHours_unknown (hours : string) :
  hours ∉ ["10"; "20"; "30"; "40"; "50"] ->
  hours ∉ Object_prototype_keys ->
  getAmountFromHours hours = JsString "".
Proof.
  intros Hkeys Hproto. unfold getAmountFromHours, js_get.
  rewrite amountMap_lookup_other by exact Hkeys.
  rewrite bool_decide_eq_false_2 by exact Hproto. reflexivity.
Qed.

(** The name of a member of [Object.prototype] is answered with that
    member, which is not a string. *)
Lemma getAmountFromHours_inherited (hours : string) :
  hours ∈ Object_prototype_keys -> getAmountFromHours hours = JsBuiltin hours.
Proof.
  intros Hproto. unfold getAmountFromHours, js_get.
  rewrite amountMap_lookup_other.
  - rewrite bool_decide_eq_true_2 by exact Hproto. reflexivity.
  - intros Hin.
    assert (Hdisj : Forall (fun k => k ∉ ["10"; "20"; "30"; "40"; "50"])
                      Object_prototype_keys)
      by by_decide.
    rewrite Forall_forall in Hdisj. exact (Hdisj _ Hproto Hin).
Qed.

(** C4, at the string [constructor]: the table has no such key, yet the
    result is the inherited member [Object.prototype.constructor] and not
    the empty string. *)
Theorem getAmountFromHours_constructor :
  ("constructor" ∉ ["10"; "20"; "30"; "40"; "50"])
  /\ getAmountFromHours "constructor" = JsBuiltin "constructor"
  /\ getAmountFromHours "constructor" <> JsString "".
Proof.
  split; [by_decide|]. split; [reflexivity|]. discriminate.
Qed.

(** ** File selection *)

Lemma has_char_cons (c a : ascii) (s : string) :
  has_char c (String a s) <-> c = a \/ has_char c s.
Proof. unfold has_char. simpl. apply elem_of_cons. Qed.

Lemma has_char_empty (c : ascii) : ~ has_char c "".
Proof. unfold has_char. simpl. apply not_elem_of_nil. Qed.

Lemma has_char_app (c : ascii) (s t : string) :
  has_char c (s +:+ t) <-> has_char c s \/ has_char c t.
Proof.
  induction s as [|a s IH].
  - change ("" +:+ t) with t. pose proof (has_char_empty c). tauto.
  - rewrite app_cons, !has_char_cons, IH. tauto.
Qed.

Lemma split_nonempty (sep : ascii) (s : string) : split sep s <> [].
Proof.
  destruct s as [|c s]; simpl; [discriminate|].
  destruct (bool_decide (c = sep)); [discriminate|].
  destruct (split sep s); discriminate.
Qed.

Lemma split_no_sep (sep : ascii) (s : string) :
  ~ has_char sep s -> split sep s = [s].
Proof.
  induction s as [|c s IH]; intros Hno; [reflexivity|].
  rewrite has_char_cons in Hno. simpl.
  rewrite bool_decide_eq_false_2 by (intros ->; tauto).
  rewrite IH by tauto. reflexivity.
Qed.

Lemma split_two_pieces (sep : ascii) (s : string) :
  has_char sep s -> exists piece x rest, split sep s = piece :: x :: rest.
Proof.
  induction s as [|c s IH]; intros Hhas.
  - destruct (has_char_empty _ Hhas).
  - simpl. destruct (decide (c = sep)) as [->|Hne].
    + rewrite bool_decide_eq_true_2 by reflexivity.
      pose proof (split_nonempty sep s) as Hs.
      destruct (split sep s) as [|x rest]; [congruence|]. eauto.
    + rewrite bool_decide_eq_false_2 by exact Hne.
      apply has_char_cons in Hhas as [->|Hhas]; [congruence|].
      destruct (IH Hhas) as (piece & x & rest & ->). eauto.
Qed.

Lemma after_last_no_sep (sep : ascii) (s : string) :
  ~ has_char sep s -> after_last sep s = s.
Proof.
  destruct s as [|c s]; intros Hno; [reflexivity|].
  rewrite has_char_cons in Hno. simpl.
  rewrite bool_decide_eq_false_2 by tauto.
  rewrite bool_decide_eq_false_2 by (intros ->; tauto). reflexivity.
Qed.

Lemma after_last_app (sep : ascii) (p e : string) :
  ~ has_char sep e -> after_last sep (p +:+ String sep e) = e.
Proof.
  intros Hno. induction p as [|c p IH].
  - change ("" +:+ String sep e) with (String sep e). simpl.
    rewrite bool_decide_eq_false_2 by exact Hno.
    rewrite bool_decide_eq_true_2 by reflexivity. reflexivity.
  - rewrite app_cons. simpl.
    rewrite bool_decide_eq_true_2; [exact IH|].
    apply has_char_app. right. apply has_char_cons. left. reflexivity.
Qed.

(** [split] and [pop] together take what follows the last separator. *)
Lemma pop_split (sep : ascii) (s : string) :
  pop (split sep s) = Some (after_last sep s).
Proof.
  unfold pop. induction s as [|c s IH]; [reflexivity|].
  simpl. destruct (decide (has_char sep s)) as [Hhas|Hno].
  - rewrite (bool_decide_eq_true_2 _ Hhas).
    destruct (split_two_pieces sep s Hhas) as (piece & x & rest & Hs).
    rewrite Hs in IH |- *.
    destruct (bool_decide (c = sep)); exact IH.
  - rewrite (bool_decide_eq_false_2 _ Hno).
    rewrite (split_no_sep sep s Hno).
    destruct (bool_decide (c = sep)); reflexivity.
Qed.

Lemma fileType_extension (f : File) : fileType f = Some (extension f).
Proof. apply pop_split. Qed.

Lemma lower_ascii_dot (c : ascii) : "."%char = lower_ascii c <-> "."%char = c.
Proof.
  destruct c as [[] [] [] [] [] [] [] []]; vm_compute; split; congruence.
Qed.

Lemma has_dot_toLowerCase (s : string) :
  has_char "." (toLowerCase s) <-> has_char "." s.
Proof.
  induction s as [|c s IH]; [reflexivity|].
  simpl. rewrite !has_char_cons, IH.
  rewrite (lower_ascii_dot c). reflexivity.
Qed.

Lemma validateAndSetFile_accept (f : File) (st : state) :
  acceptable f ->
  validateAndSetFile f st = setError None (setUploadedFile (Some f) st).
Proof.
  intros [Hsize Hext]. unfold validateAndSetFile, max_file_size.
  destruct (N.ltb_spec (10 * 1024 * 1024) (file_size f)) as [Hlt|_]; [lia|].
  rewrite fileType_extension. unfold array_includes. simpl default.
  rewrite bool_decide_eq_true_2 by exact Hext. reflexivity.
Qed.

Lemma validateAndSetFile_too_large (f : File) (st : state) :
  10 * 1024 * 1024 < file_size f ->
  validateAndSetFile f st =
  setUploadedFile None (setError (Some "File size must be less than 10MB") st).
Proof.
  intros Hlt. unfold validateAndSetFile, max_file_size.
  destruct (N.ltb_spec (10 * 1024 * 1024) (file_size f)) as [_|Hle]; [reflexivity|lia].
Qed.

Lemma validateAndSetFile_reject (f : File) (st : state) :
  ~ acceptable f ->
  uploadedFile (validateAndSetFile f st) = None
  /\ exists msg, error (validateAndSetFile f st) = Some msg /\ msg <> "".
Proof.
  intros Hnot. unfold validateAndSetFile, max_file_size.
  destruct (N.ltb_spec (10 * 1024 * 1024) (file_size f)) as [Hlt|Hle].
  - split; [reflexivity|]. eexists. split; [reflexivity|discriminate].
  - rewrite fileType_extension. unfold array_includes. simpl default.
    rewrite bool_decide_eq_false_2.
    + split; [reflexivity|]. eexists. split; [reflexivity|discriminate].
    + intros Hext. apply Hnot. split; assumption.
Qed.

(** The file and the message a validation leaves do not depend on the state
    it starts from. *)
Lemma validateAndSetFile_outcome (f : File) (st1 st2 : state) :
  uploadedFile (validateAndSetFile f st1) = uploadedFile (validateAndSetFile f st2)
  /\ error (validateAndSetFile f st1) = error (validateAndSetFile f st2).
Proof.
  unfold validateAndSetFile.
  destruct (max_file_size <? file_size f); [split; reflexivity|].
  destruct (negb _); split; reflexivity.
Qed.

(** C6. A file is accepted exactly when it is at most 10 MB and its extension
    is pdf, doc or docx; an accepted file is stored and the message cleared;
    a rejected file leaves no stored file and a non-empty message; a file
    over 10 MB gets the size message whatever its extension; the picker and
    the drop path run the same validation with the same outcome. *)
Theorem file_validation (f : File) (st : state) :
  (uploadedFile (validateAndSetFile f st) = Some f <-> acceptable f)
  /\ (acceptable f ->
      validateAndSetFile f st = setError None (setUploadedFile (Some f) st))
  /\ (~ acceptable f ->
      uploadedFile (validateAndSetFile f st) = None
      /\ exists msg, error (validateAndSetFile f st) = Some msg /\ msg <> "")
  /\ (10 * 1024 * 1024 < file_size f ->
      validateAndSetFile f st =
      setUploadedFile None (setError (Some "File size must be less than 10MB") st))
  /\ handleFileChange (Some f) st = validateAndSetFile f st
  /\ handleDrop (Some f) st = validateAndSetFile f (setIsDragging false st)
  /\ uploadedFile (handleDrop (Some f) st) = uploadedFile (handleFileChange (Some f) st)
  /\ error (handleDrop (Some f) st) = error (handleFileChange (Some f) st).
Proof.
  split; [|split; [|split; [|split; [|split; [|split; [|split]]]]]].
  - split.
    + intros Hup. destruct (decide (acceptable f)) as [Hacc|Hnot]; [exact Hacc|].
      destruct (validateAndSetFile_reject f st Hnot) as [Hnone _]. congruence.
    + intros Hacc. rewrite validateAndSetFile_accept by exact Hacc. reflexivity.
  - apply validateAndSetFile_accept.
  - apply validateAndSetFile_reject.
  - apply validateAndSetFile_too_large.
  - reflexivity.
  - reflexivity.
  - apply validateAndSetFile_outcome.
  - apply validateAndSetFile_outcome.
Qed.

Lemma file_validation_witness :
  acceptable {| file_name := "resume.docx"; file_size := 10485760 |}
  /\ uploadedFile
       (handleDrop (Some {| file_name := "resume.docx"; file_size := 10485760 |})
          (handleDragEnter initial_state))
     = Some {| file_name := "resume.docx"; file_size := 10485760 |}
  /\ ~ acceptable {| file_name := "resume.pdf"; file_size := 10485761 |}
  /\ 10 * 1024 * 1024 < 10485761.
Proof.
  pose (f := {| file_name := "resume.docx"; file_size := 10485760 |}).
  assert (Hacc : acceptable f) by by_decide.
  split; [exact Hacc|]. split.
  - destruct (file_validation f (handleDragEnter initial_state))
      as (_ & _ & _ & _ & _ & Hdrop & _).
    fold f. rewrite Hdrop.
    destruct (file_validation f (setIsDragging false (handleDragEnter initial_state)))
      as (_ & Haccept & _).
    rewrite (Haccept Hacc). reflexivity.
  - split; [by_decide|lia].
Defined.

(** C10. The extension the validation uses is what follows the last dot of
    the lower-cased file name, the whole lower-cased name when it has no dot;
    so names that differ only in case have the same extension, [CV.PDF] is
    accepted, and so is a file named just [pdf], [doc] or [docx]. *)
Theorem fileType_after_last_dot (f : File) :
  fileType f = Some (extension f)
  /\ (forall p e : string,
        toLowerCase (file_name f) = p +:+ String "." e -> ~ has_char "." e ->
        fileType f = Some e)
  /\ (~ has_char "." (file_name f) -> fileType f = Some (toLowerCase (file_name f)))
  /\ (forall g : File,
        toLowerCase (file_name g) = toLowerCase (file_name f) ->
        fileType g = fileType f)
  /\ (forall st : state,
        file_size f <= 10 * 1024 * 1024 ->
        file_name f ∈ ["CV.PDF"; "pdf"; "doc"; "docx"] ->
        uploadedFile (validateAndSetFile f st) = Some f).
Proof.
  split; [apply fileType_extension|]. split; [|split; [|split]].
  - intros p e Hname Hno. rewrite fileType_extension. unfold extension.
    rewrite Hname. f_equal. apply after_last_app. exact Hno.
  - intros Hno. rewrite fileType_extension. unfold extension.
    f_equal. apply after_last_no_sep. rewrite has_dot_toLowerCase. exact Hno.
  - intros g Hname. unfold fileType. rewrite Hname. reflexivity.
  - intros st Hsize Hname.
    rewrite validateAndSetFile_accept; [reflexivity|].
    split; [exact Hsize|]. unfold extension.
    rewrite !elem_of_cons in Hname.
    destruct Hname as [-> | [-> | [-> | [-> | Hnil]]]];
      [by_decide..|destruct (not_elem_of_nil _ Hnil)].
Qed.

Lemma fileType_after_last_dot_witness :
  fileType {| file_name := "My.Cv.PDF"; file_size := 2048 |} = Some "pdf"
  /\ fileType {| file_name := "DOCX"; file_size := 2048 |} = Some "docx"
  /\ uploadedFile (validateAndSetFile {| file_name := "doc"; file_size := 2048 |} initial_state)
     = Some {| file_name := "doc"; file_size := 2048 |}.
Proof.
  split; [|split].
  - refine (proj1 (proj2 (fileType_after_last_dot _)) "my.cv" "pdf" _ _);
      [reflexivity|by_decide].
  - refine (proj1 (proj2 (proj2 (fileType_after_last_dot _))) _). by_decide.
  - refine (proj2 (proj2 (proj2 (proj2 (fileType_after_last_dot _)))) _ _ _);
      [simpl; lia|by_decide].
Defined.

(** ** Input changes *)

(** C9. An input change sets the named field to the new value, leaves every
    other field, the uploaded file and the rest of the state as they were,
    and clears the error message. *)
Theorem handleInputChange_frame (name value : string) (st : state) :
  formData (handleInputChange name value st) !! name = Some value
  /\ (forall k : string, k <> name ->
        formData (handleInputChange name value st) !! k = formData st !! k)
  /\ uploadedFile (handleInputChange name value st) = uploadedFile st
  /\ error (handleInputChange name value st) = None
  /\ isSubmitting (handleInputChange name value st) = isSubmitting st
  /\ isDragging (handleInputChange name value st) = isDragging st
  /\ api_calls (handleInputChange name value st) = api_calls st
  /\ in_flight (handleInputChange name value st) = in_flight st
  /\ location_href (handleInputChange name value st) = location_href st.
Proof.
  unfold handleInputChange. simpl.
  split; [apply lookup_insert_eq|].
  split; [|repeat split].
  intros k Hk. apply lookup_insert_ne. congruence.
Qed.

Lemma handleInputChange_frame_witness :
  formData (handleInputChange "email" "a@b.co"
              (setError (Some email_error) initial_state)) !! "firstName" = Some ""
  /\ error (handleInputChange "email" "a@b.co"
              (setError (Some email_error) initial_state)) = None.
Proof.
  destruct (handleInputChange_frame "email" "a@b.co"
              (setError (Some email_error) initial_state))
    as (_ & Hother & _ & Herr & _).
  split; [|exact Herr].
  rewrite (Hother "firstName") by discriminate. reflexivity.
Defined.

(** ** Validation *)

Lemma includes_char (s : string) (c : ascii) :
  includes s (String c "") = true <-> has_char c s.
Proof.
  induction s as [|b s IH].
  - simpl. split; [discriminate|]. intros H. destruct (has_char_empty _ H).
  - rewrite has_char_cons. simpl. rewrite andb_true_r, orb_true_iff, IH.
    rewrite bool_decide_eq_true. reflexivity.
Qed.

Lemma includes_char_false (s : string) (c : ascii) :
  ~ has_char c s -> includes s (String c "") = false.
Proof.
  intros Hno. destruct (includes s (String c "")) eqn:Hinc; [|reflexivity].
  apply includes_char in Hinc. contradiction.
Qed.

Lemma requiredFields_not_inherited (f : string) :
  f ∈ requiredFields -> f ∉ Object_prototype_keys.
Proof.
  assert (Hall : Forall (fun k => k ∉ Object_prototype_keys) requiredFields)
    by by_decide.
  rewrite Forall_forall in Hall. apply Hall.
Qed.

Section SubmitFacts.

Variable E : engine.

Lemma validateForm_email (fd : gmap string string) (e : string) :
  fd !! "email" = Some e -> ~ has_char "@" e ->
  validateForm E fd = Throw (ErrorInstance email_error).
Proof.
  intros Hemail Hno. unfold validateForm. rewrite Hemail.
  rewrite includes_char_false by exact Hno. reflexivity.
Qed.

Lemma validateForm_required (fd : gmap string string) (e f : string) :
  fd !! "email" = Some e -> has_char "@" e ->
  f ∈ requiredFields -> fd !! f = Some "" ->
  validateForm E fd = Throw (ErrorInstance required_error).
Proof.
  intros Hemail Hat Hf Hempty. unfold validateForm. rewrite Hemail.
  apply includes_char in Hat. rewrite Hat. cbv zeta. simpl negb. cbv iota.
  assert (Hin : In f (List.filter (fun field => negb (truthy (js_get fd field)))
                        requiredFields)).
  { apply filter_In. split; [apply list_elem_of_In; exact Hf|].
    unfold js_get. rewrite Hempty. reflexivity. }
  destruct (List.filter _ requiredFields) as [|x l]; [destruct Hin|reflexivity].
Qed.

(** Validation passes exactly when the email has an [@] and every required
    field holds a non-empty string. *)
Lemma validateForm_Normal (fd : gmap string string) :
  validateForm E fd = Normal <->
  (exists e, fd !! "email" = Some e /\ has_char "@" e)
  /\ (forall f, f ∈ requiredFields -> exists v, fd !! f = Some v /\ v <> "").
Proof.
  unfold validateForm. split.
  - destruct (fd !! "email") as [e|] eqn:Hemail; [|discriminate].
    destruct (includes e "@") eqn:Hinc; [|discriminate].
    simpl negb. cbv iota zeta.
    destruct (List.filter _ requiredFields) as [|x l] eqn:Hfilter; [|discriminate].
    intros _. split; [exists e; split; [reflexivity|apply includes_char; exact Hinc]|].
    intros f Hf.
    assert (Hkeep : negb (truthy (js_get fd f)) = false).
    { destruct (negb (truthy (js_get fd f))) eqn:Hneg; [|reflexivity].
      assert (Hin : In f (List.filter (fun field => negb (truthy (js_get fd field)))
                            requiredFields))
        by (apply filter_In; split; [apply list_elem_of_In; exact Hf|exact Hneg]).
      rewrite Hfilter in Hin. destruct Hin. }
    unfold js_get in Hkeep.
    rewrite (bool_decide_eq_false_2 _ (requiredFields_not_inherited f Hf)) in Hkeep.
    destruct (fd !! f) as [v|]; [|discriminate].
    exists v. split; [reflexivity|]. intros ->. discriminate.
  - intros [(e & Hemail & Hat) Hall]. rewrite Hemail.
    apply includes_char in Hat. rewrite Hat. simpl negb. cbv iota zeta.
    assert (Hnil : List.filter (fun field => negb (truthy (js_get fd field)))
                     requiredFields = []).
    { destruct (List.filter _ requiredFields) as [|x l] eqn:Hfilter; [reflexivity|].
      assert (Hin : In x (List.filter (fun field => negb (truthy (js_get fd field)))
                            requiredFields))
        by (rewrite Hfilter; left; reflexivity).
      apply filter_In in Hin as [Hx Hneg].
      apply list_elem_of_In in Hx. destruct (Hall x Hx) as (v & Hv & Hne).
      unfold js_get in Hneg. rewrite Hv in Hneg. simpl in Hneg.
      rewrite bool_decide_eq_false_2 in Hneg by exact Hne. discriminate. }
    rewrite Hnil. reflexivity.
Qed.

(** *** The three ways through [handleSubmit] *)

Lemma handleSubmit_latched (draw : N) (st : state) :
  isSubmitting st = true -> handleSubmit E draw st = st.
Proof. intros H. unfold handleSubmit. rewrite H. reflexivity. Qed.

Lemma handleSubmit_invalid (draw : N) (st : state) (t : js_thrown) :
  isSubmitting st = false -> validateForm E (formData st) = Throw t ->
  handleSubmit E draw st =
  setIsSubmitting false (catch_submit t (setError None (setIsSubmitting true st))).
Proof.
  intros H Hv. unfold handleSubmit. rewrite H. simpl. rewrite Hv. reflexivity.
Qed.

Lemma handleSubmit_valid (draw : N) (st : state) :
  isSubmitting st = false -> validateForm E (formData st) = Normal ->
  handleSubmit E draw st =
  call_createContact (build_createContact (formData st) draw)
    (setError None (setIsSubmitting true st)).
Proof.
  intros H Hv. unfold handleSubmit. rewrite H. simpl. rewrite Hv. reflexivity.
Qed.

End SubmitFacts.

(** ** The latch and the calls issued *)

Lemma validateAndSetFile_frame (f : File) (st : state) :
  formData (validateAndSetFile f st) = formData st
  /\ isSubmitting (validateAndSetFile f st) = isSubmitting st
  /\ api_calls (validateAndSetFile f st) = api_calls st
  /\ in_flight (validateAndSetFile f st) = in_flight st
  /\ location_href (validateAndSetFile f st) = location_href st.
Proof.
  unfold validateAndSetFile.
  destruct (max_file_size <? file_size f); [repeat split|].
  destruct (negb _); repeat split.
Qed.

Section Latch.

Variable E : engine.

(** An event that is not the settling of the call touches neither the
    latch nor the world outside while the latch is set. *)
Lemma step_latched (st : state) (ev : event) :
  isSubmitting st = true -> is_settle ev = false ->
  isSubmitting (step E st ev) = true
  /\ api_calls (step E st ev) = api_calls st
  /\ in_flight (step E st ev) = in_flight st
  /\ location_href (step E st ev) = location_href st.
Proof.
  intros Hlatch Hev.
  destruct ev as [name value|[f|]| | | |[f|]| |draw| |apiError];
    try discriminate Hev; simpl; try (repeat split; assumption).
  - destruct (validateAndSetFile_frame f st) as (_ & -> & -> & -> & ->).
    repeat split; assumption.
  - destruct (validateAndSetFile_frame f (setIsDragging false st))
      as (_ & -> & -> & -> & ->).
    repeat split; assumption.
  - rewrite handleSubmit_latched by exact Hlatch. repeat split; assumption.
Qed.

Lemma run_latched (evs : list event) :
  forall st : state,
    isSubmitting st = true -> no_settle evs ->
    isSubmitting (run E st evs) = true
    /\ api_calls (run E st evs) = api_calls st
    /\ in_flight (run E st evs) = in_flight st
    /\ location_href (run E st evs) = location_href st.
Proof.
  induction evs as [|ev evs IH]; intros st Hlatch Hevs; [repeat split; assumption|].
  apply Forall_cons in Hevs as [Hev Hevs].
  destruct (step_latched st ev Hlatch Hev) as (Hl & Hc & Hf & Hh).
  destruct (IH (step E st ev) Hl Hevs) as (Hl' & Hc' & Hf' & Hh').
  change (run E st (ev :: evs)) with (run E (step E st ev) evs).
  repeat split; congruence.
Qed.

(** One such event issues no call, or issues one and sets the latch. *)
Lemma step_calls (st : state) (ev : event) :
  is_settle ev = false ->
  api_calls (step E st ev) = api_calls st
  \/ (isSubmitting (step E st ev) = true
      /\ exists c, api_calls (step E st ev) = api_calls st ++ [c]).
Proof.
  intros Hev.
  destruct ev as [name value|[f|]| | | |[f|]| |draw| |apiError];
    try discriminate Hev; simpl; try (left; reflexivity).
  - left. apply validateAndSetFile_frame.
  - left. apply (validateAndSetFile_frame f (setIsDragging false st)).
  - destruct (isSubmitting st) eqn:Hlatch.
    + left. rewrite handleSubmit_latched by exact Hlatch. reflexivity.
    + destruct (validateForm E (formData st)) as [|t] eqn:Hv.
      * right. rewrite handleSubmit_valid by assumption.
        split; [reflexivity|]. eexists. reflexivity.
      * left. rewrite (handleSubmit_invalid E draw st t) by assumption.
        destruct t; reflexivity.
Qed.

Lemma run_at_most_one_call (evs : list event) :
  forall st : state,
    no_settle evs ->
    (length (api_calls (run E st evs)) <= S (length (api_calls st)))%nat.
Proof.
  induction evs as [|ev evs IH]; intros st Hevs; [simpl; lia|].
  apply Forall_cons in Hevs as [Hev Hevs].
  change (run E st (ev :: evs)) with (run E (step E st ev) evs).
  destruct (step_calls st ev Hev) as [Hsame|(Hlatch & c & Hcall)].
  - rewrite <- Hsame. apply IH. exact Hevs.
  - destruct (run_latched evs _ Hlatch Hevs) as (_ & -> & _).
    rewrite Hcall, length_app. simpl. lia.
Qed.

(** *** The invariant of reachable states *)

Lemma initial_latch_invariant : latch_invariant initial_state.
Proof.
  split; [reflexivity|].
  intros k Hk. unfold initial_state, initial_formData. simpl.
  unfold field_names in Hk. rewrite !elem_of_cons in Hk.
  repeat (destruct Hk as [->|Hk]; [by_decide|]).
  destruct (not_elem_of_nil _ Hk).
Qed.

Lemma step_latch_invariant (st : state) (ev : event) :
  latch_invariant st -> latch_invariant (step E st ev).
Proof.
  intros [Hlatch Hfields].
  destruct ev as [name value|[f|]| | | |[f|]| |draw| |apiError]; simpl;
    try (split; assumption).
  - split; [exact Hlatch|]. intros k Hk.
    change (formData (handleInputChange name value st))
      with (<[name := value]> (formData st)).
    destruct (decide (name = k)) as [->|Hne].
    + rewrite lookup_insert_eq. eauto.
    + rewrite lookup_insert_ne by exact Hne. apply Hfields, Hk.
  - destruct (validateAndSetFile_frame f st) as (Hfd & Hl & _ & Hf & _).
    split; rewrite ?Hl, ?Hf, ?Hfd; assumption.
  - destruct (validateAndSetFile_frame f (setIsDragging false st))
      as (Hfd & Hl & _ & Hf & _).
    split; rewrite ?Hl, ?Hf, ?Hfd; assumption.
  - destruct (isSubmitting st) eqn:Hs.
    + rewrite handleSubmit_latched by exact Hs. split; [rewrite Hs|]; assumption.
    + destruct (validateForm E (formData st)) as [|t] eqn:Hv.
      * rewrite handleSubmit_valid by assumption. split; [|exact Hfields].
        simpl. rewrite Hlatch. eauto.
      * rewrite (handleSubmit_invalid E draw st t) by assumption.
        destruct t; split; assumption.
  - unfold handleSubmit_resolved.
    destruct (in_flight st) as [|fd rest] eqn:Hf.
    + split; [rewrite Hf|]; assumption.
    + split; [|exact Hfields]. simpl.
      destruct (isSubmitting st); [|discriminate].
      destruct Hlatch as [fd' Heq]. congruence.
  - unfold handleSubmit_rejected.
    destruct (in_flight st) as [|fd rest] eqn:Hf.
    + split; [rewrite Hf|]; assumption.
    + assert (Hrest : rest = []).
      { destruct (isSubmitting st); [|discriminate].
        destruct Hlatch as [fd' Heq]. congruence. }
      destruct (catch_apiError E apiError); split; simpl; assumption.
Qed.

Lemma run_latch_invariant (evs : list event) :
  forall st : state, latch_invariant st -> latch_invariant (run E st evs).
Proof.
  induction evs as [|ev evs IH]; intros st Hinv; [exact Hinv|].
  apply (IH (step E st ev)). apply step_latch_invariant. exact Hinv.
Qed.

Lemma reachable_latch_invariant (st : state) :
  reachable E st -> latch_invariant st.
Proof.
  intros [evs ->]. apply run_latch_invariant, initial_latch_invariant.
Qed.

End Latch.

(** ** Submission *)

(** C3. When the email has no [@], validation fails with the email message,
    whatever the other fields hold (the required fields are looked at only
    afterwards); a submit that is not already latched then shows that
    message, issues no call and leaves the form as it was. *)
Theorem submit_email_without_at (E : engine) (st : state) (draw : N) (e : string) :
  formData st !! "email" = Some e -> ~ has_char "@" e ->
  validateForm E (formData st) = Throw (ErrorInstance email_error)
  /\ (isSubmitting st = false ->
      error (handleSubmit E draw st) = Some email_error
      /\ api_calls (handleSubmit E draw st) = api_calls st
      /\ in_flight (handleSubmit E draw st) = in_flight st
      /\ location_href (handleSubmit E draw st) = location_href st
      /\ formData (handleSubmit E draw st) = formData st
      /\ isSubmitting (handleSubmit E draw st) = false).
Proof.
  intros Hemail Hno.
  pose proof (validateForm_email E _ _ Hemail Hno) as Hv.
  split; [exact Hv|]. intros Hlatch.
  rewrite (handleSubmit_invalid E draw st _ Hlatch Hv). repeat split.
Qed.

Lemma submit_email_without_at_witness :
  formData initial_state !! "firstName" = Some ""
  /\ error (handleSubmit sample_engine 7
              (handleInputChange "email" "jane.example.org" initial_state))
     = Some "Please enter a valid email address"
  /\ api_calls (handleSubmit sample_engine 7
                  (handleInputChange "email" "jane.example.org" initial_state))
     = [].
Proof.
  split; [reflexivity|].
  assert (Hemail : formData (handleInputChange "email" "jane.example.org" initial_state)
                     !! "email" = Some "jane.example.org") by reflexivity.
  assert (Hno : ~ has_char "@" "jane.example.org") by by_decide.
  destruct (submit_email_without_at sample_engine _ 7 _ Hemail Hno) as [_ Hsub].
  destruct (Hsub eq_refl) as (Herr & Hcalls & _).
  split; [exact Herr|exact Hcalls].
Defined.

(** C2. When the email has an [@] and some required field is the empty
    string, validation fails with the required-fields message; a submit that
    is not already latched then shows that message, issues no call and
    leaves the form fields as they were. *)
Theorem submit_missing_required
    (E : engine) (st : state) (draw : N) (e f : string) :
  formData st !! "email" = Some e -> has_char "@" e ->
  f ∈ requiredFields -> formData st !! f = Some "" ->
  validateForm E (formData st) = Throw (ErrorInstance required_error)
  /\ (isSubmitting st = false ->
      error (handleSubmit E draw st) = Some required_error
      /\ api_calls (handleSubmit E draw st) = api_calls st
      /\ in_flight (handleSubmit E draw st) = in_flight st
      /\ location_href (handleSubmit E draw st) = location_href st
      /\ formData (handleSubmit E draw st) = formData st
      /\ isSubmitting (handleSubmit E draw st) = false).
Proof.
  intros Hemail Hat Hf Hempty.
  pose proof (validateForm_required E _ _ _ Hemail Hat Hf Hempty) as Hv.
  split; [exact Hv|]. intros Hlatch.
  rewrite (handleSubmit_invalid E draw st _ Hlatch Hv). repeat split.
Qed.

Lemma submit_missing_required_witness :
  error (handleSubmit sample_engine 7
           (handleInputChange "dbsCheck" "" filled_state))
  = Some "Please fill in all required fields"
  /\ api_calls (handleSubmit sample_engine 7
                  (handleInputChange "dbsCheck" "" filled_state))
     = [].
Proof.
  assert (Hemail : formData (handleInputChange "dbsCheck" "" filled_state)
                     !! "email" = Some "jane+doe@example.org") by reflexivity.
  assert (Hat : has_char "@" "jane+doe@example.org") by by_decide.
  assert (Hf : "dbsCheck" ∈ requiredFields) by by_decide.
  assert (Hempty : formData (handleInputChange "dbsCheck" "" filled_state)
                     !! "dbsCheck" = Some "") by reflexivity.
  destruct (submit_missing_required sample_engine _ 7 _ _ Hemail Hat Hf Hempty)
    as [_ Hsub].
  destruct (Hsub eq_refl) as (Herr & Hcalls & _).
  split; [exact Herr|exact Hcalls].
Defined.

Lemma run_snoc (E : engine) (st : state) (evs : list event) (ev : event) :
  run E st (evs ++ [ev]) = step E (run E st evs) ev.
Proof. unfold run. rewrite fold_left_app. reflexivity. Qed.

(** C1. From a reachable state that is not submitting and passes validation,
    a submit issues one createContact call: keyed by the form's email, with
    the first name, last name, hours, the amount derived from the hours and
    the generated reference code as attributes, and list 7.  Whatever the
    user does while the call is in flight, no second call is issued, and when
    the call succeeds the browser is sent to the confirmation address with
    the submitted email URL-encoded.  With 20 hours the amount is 330 pounds. *)
Theorem submit_valid_form
    (E : engine) (st : state) (draw : N) (evs : list event) :
  reachable E st -> isSubmitting st = false ->
  validateForm E (formData st) = Normal ->
  exists e fn ln h : string,
    formData st !! "email" = Some e
    /\ formData st !! "firstName" = Some fn
    /\ formData st !! "lastName" = Some ln
    /\ formData st !! "hoursPerWeek" = Some h
    /\ api_calls (handleSubmit E draw st) =
       api_calls st ++
         [ {| email := JsString e;
              attributes :=
                {| FIRSTNAME := JsString fn;
                   LASTNAME := JsString ln;
                   HOURS := JsString h;
                   AMOUNT := getAmountFromHours h;
                   UNIQUE := generateReferenceNumber draw |};
              listIds := [7] |} ]
    /\ (h = "20" -> getAmountFromHours h = JsString "£330")
    /\ (no_settle evs ->
        api_calls (run E (handleSubmit E draw st) (evs ++ [ApiResolved])) =
        api_calls (handleSubmit E draw st)
        /\ location_href (run E (handleSubmit E draw st) (evs ++ [ApiResolved])) =
           Some (confirmation_url +:+ encodeURIComponent e)
        /\ isSubmitting (run E (handleSubmit E draw st) (evs ++ [ApiResolved])) = false).
Proof.
  intros Hreach Hlatch Hv.
  destruct (reachable_latch_invariant E st Hreach) as [Hflight _].
  rewrite Hlatch in Hflight.
  pose proof (proj1 (validateForm_Normal E _) Hv) as [(e & Hemail & Hat) Hall].
  destruct (Hall "firstName" ltac:(by_decide)) as (fn & Hfn & _).
  destruct (Hall "lastName" ltac:(by_decide)) as (ln & Hln & _).
  destruct (Hall "hoursPerWeek" ltac:(by_decide)) as (h & Hh & _).
  exists e, fn, ln, h.
  rewrite (handleSubmit_valid E draw st Hlatch Hv).
  repeat (split; [assumption|]).
  split; [|split].
  - simpl. unfold build_createContact, js_own.
    rewrite Hemail, Hfn, Hln, Hh. reflexivity.
  - intros ->. reflexivity.
  - intros Hevs. rewrite run_snoc.
    set (st1 := call_createContact _ _).
    assert (Hl1 : isSubmitting st1 = true) by reflexivity.
    destruct (run_latched E evs st1 Hl1 Hevs) as (_ & Hcalls & Hfl & _).
    assert (Hfl1 : in_flight st1 = [formData st])
      by (unfold st1; simpl; rewrite Hflight; reflexivity).
    rewrite Hfl1 in Hfl.
    simpl. unfold handleSubmit_resolved. rewrite Hfl. simpl.
    rewrite Hemail. repeat split. exact Hcalls.
Qed.

Lemma submit_valid_form_witness :
  api_calls (handleSubmit sample_engine 42 filled_state) =
    [ {| email := JsString "jane+doe@example.org";
         attributes :=
           {| FIRSTNAME := JsString "Jane";
              LASTNAME := JsString "Doe";
              HOURS := JsString "20";
              AMOUNT := JsString "£330";
              UNIQUE := "EDI00042" |};
         listIds := [7] |} ]
  /\ location_href
       (run sample_engine (handleSubmit sample_engine 42 filled_state)
          ([Submit 43; InputChange "email" "other@example.org"] ++ [ApiResolved]))
     = Some "https://exactdatainput.uk/application-submitted?email=jane%2Bdoe%40example.org".
Proof.
  assert (Hreach : reachable sample_engine filled_state)
    by (exists fill_form; reflexivity).
  assert (Hv : validateForm sample_engine (formData filled_state) = Normal)
    by (vm_compute; reflexivity).
  destruct (submit_valid_form sample_engine filled_state 42
              [Submit 43; InputChange "email" "other@example.org"]
              Hreach eq_refl Hv)
    as (e & fn & ln & h & He & Hfn & Hln & Hh & Hcalls & _ & Hrun).
  vm_compute in He, Hfn, Hln, Hh.
  injection He as <-. injection Hfn as <-. injection Hln as <-. injection Hh as <-.
  split; [exact Hcalls|].
  assert (Hevs : no_settle [Submit 43; InputChange "email" "other@example.org"])
    by (repeat constructor).
  destruct (Hrun Hevs) as (_ & Hloc & _). exact Hloc.
Defined.

(** C7. When the call in flight fails: with a non-empty response text whose
    JSON has the string [message], that string is the message shown; with no
    response text the connectivity message is shown; in every case the latch
    is cleared, no further call is issued, and a later submit of a valid form
    goes out again. *)
Theorem remote_failure
    (E : engine) (st : state) (apiError : ApiError)
    (fd : gmap string string) (rest : list (gmap string string)) :
  in_flight st = fd :: rest ->
  (forall t m : string,
      response_text apiError = Some t -> t <> "" ->
      JSON_parse_message E t = MessageString m ->
      error (handleSubmit_rejected E apiError st) = Some m)
  /\ (response_text apiError = None \/ response_text apiError = Some "" ->
      error (handleSubmit_rejected E apiError st) =
      Some "Unable to connect to the server. Please check your internet connection and try again.")
  /\ isSubmitting (handleSubmit_rejected E apiError st) = false
  /\ api_calls (handleSubmit_rejected E apiError st) = api_calls st
  /\ in_flight (handleSubmit_rejected E apiError st) = rest
  /\ formData (handleSubmit_rejected E apiError st) = formData st
  /\ location_href (handleSubmit_rejected E apiError st) = location_href st
  /\ (forall draw : N,
        validateForm E (formData st) = Normal ->
        api_calls (handleSubmit E draw (handleSubmit_rejected E apiError st)) =
        api_calls st ++ [build_createContact (formData st) draw]).
Proof.
  intros Hfl. unfold handleSubmit_rejected. rewrite Hfl. cbv zeta.
  split; [|split].
  - intros t m Ht Hne Hm. unfold catch_apiError. rewrite Ht.
    rewrite bool_decide_eq_false_2 by exact Hne. rewrite Hm. reflexivity.
  - intros [Ht|Ht]; unfold catch_apiError; rewrite Ht; reflexivity.
  - destruct (catch_apiError E apiError) as [m|]; simpl; repeat split;
      intros draw Hv; rewrite handleSubmit_valid by (try reflexivity; exact Hv);
      reflexivity.
Qed.

(** What is shown for the other response texts: the message of the error
    [JSON.parse] raised, nothing when the parsed value has no [message], and
    the rendering of a [message] that is not a string. *)
Lemma remote_failure_other_bodies
    (E : engine) (st : state) (apiError : ApiError)
    (fd : gmap string string) (rest : list (gmap string string)) (t : string) :
  in_flight st = fd :: rest ->
  response_text apiError = Some t -> t <> "" ->
  error (handleSubmit_rejected E apiError st) =
  Some match JSON_parse_message E t with
       | ParseThrows m => m
       | MessageAbsent => ""
       | MessageString m => m
       | MessageOther shown => shown
       end.
Proof.
  intros Hfl Ht Hne. unfold handleSubmit_rejected, catch_apiError.
  rewrite Hfl, Ht. rewrite bool_decide_eq_false_2 by exact Hne.
  destruct (JSON_parse_message E t); reflexivity.
Qed.

Lemma remote_failure_witness :
  error (run sample_engine filled_state
           [Submit 42; ApiRejected {| response := Some {| text := Some sample_body |} |}])
  = Some "Contact already exist"
  /\ error (run sample_engine filled_state
              [Submit 42; ApiRejected {| response := None |}])
     = Some "Unable to connect to the server. Please check your internet connection and try again."
  /\ banner (run sample_engine filled_state
               [Submit 42; ApiRejected {| response := Some {| text := Some "" |} |}])
     = Some "Unable to connect to the server. Please check your internet connection and try again.".
Proof.
  pose (st1 := handleSubmit sample_engine 42 filled_state).
  assert (Hfl : in_flight st1 = [formData filled_state]) by reflexivity.
  split.
  - destruct (remote_failure sample_engine st1
                {| response := Some {| text := Some sample_body |} |} _ _ Hfl)
      as (Hmsg & _).
    apply (Hmsg sample_body "Contact already exist");
      [reflexivity|by_decide|vm_compute; reflexivity].
  - split.
    + destruct (remote_failure sample_engine st1 {| response := None |} _ _ Hfl)
        as (_ & Hnone & _).
      apply Hnone. left. reflexivity.
    + destruct (remote_failure sample_engine st1
                  {| response := Some {| text := Some "" |} |} _ _ Hfl)
        as (_ & Hnone & _).
      unfold banner.
      change (run sample_engine filled_state
                [Submit 42; ApiRejected {| response := Some {| text := Some "" |} |}])
        with (handleSubmit_rejected sample_engine
                {| response := Some {| text := Some "" |} |} st1).
      rewrite Hnone by (right; reflexivity). reflexivity.
Defined.

(** C8. While the latch is set a submit changes nothing; so however many
    submits (and other user events) occur before the call settles, at most
    one call is issued, and none once the latch is set.  The latch is cleared
    when validation fails, when the call succeeds and when it fails. *)
Theorem submit_latch (E : engine) (st : state) :
  (forall draw : N, isSubmitting st = true -> handleSubmit E draw st = st)
  /\ (forall evs : list event, no_settle evs ->
        (length (api_calls (run E st evs)) <= S (length (api_calls st)))%nat)
  /\ (forall evs : list event, isSubmitting st = true -> no_settle evs ->
        api_calls (run E st evs) = api_calls st
        /\ isSubmitting (run E st evs) = true)
  /\ (forall (draw : N) (t : js_thrown),
        isSubmitting st = false -> validateForm E (formData st) = Throw t ->
        isSubmitting (handleSubmit E draw st) = false)
  /\ (in_flight st <> [] -> isSubmitting (handleSubmit_resolved st) = false)
  /\ (forall apiError : ApiError,
        in_flight st <> [] -> isSubmitting (handleSubmit_rejected E apiError st) = false).
Proof.
  split; [|split; [|split; [|split; [|split]]]].
  - intros draw. apply handleSubmit_latched.
  - intros evs. apply run_at_most_one_call.
  - intros evs Hlatch Hevs.
    destruct (run_latched E evs st Hlatch Hevs) as (Hl & Hc & _). split; assumption.
  - intros draw t Hlatch Hv. rewrite (handleSubmit_invalid E draw st t Hlatch Hv).
    reflexivity.
  - intros Hfl. unfold handleSubmit_resolved.
    destruct (in_flight st); [congruence|reflexivity].
  - intros apiError Hfl. unfold handleSubmit_rejected.
    destruct (in_flight st); [congruence|reflexivity].
Qed.

Lemma submit_latch_witness :
  (length (api_calls (run sample_engine filled_state
                        [Submit 1; Submit 2; DragEnter; Submit 3])) <= 1)%nat
  /\ handleSubmit sample_engine 2 (handleSubmit sample_engine 1 filled_state)
     = handleSubmit sample_engine 1 filled_state
  /\ isSubmitting (handleSubmit sample_engine 1 initial_state) = false.
Proof.
  split; [|split].
  - destruct (submit_latch sample_engine filled_state) as (_ & Hmost & _).
    assert (Hevs : no_settle [Submit 1; Submit 2; DragEnter; Submit 3])
      by (repeat constructor).
    exact (Hmost _ Hevs).
  - destruct (submit_latch sample_engine (handleSubmit sample_engine 1 filled_state))
      as (Hsame & _).
    apply Hsame. reflexivity.
  - destruct (submit_latch sample_engine initial_state) as (_ & _ & _ & Hclear & _).
    apply (Hclear 1 (ErrorInstance email_error)); reflexivity.
Defined.


(** * Further properties of the component *)

(** ** The latch and the calls in flight *)

(** X1. In every reachable state the latch is set exactly when one call is
    in flight and clear exactly when none is; there is never a second call
    in flight. *)
Theorem reachable_one_call_in_flight (E : engine) (st : state) :
  reachable E st ->
  (isSubmitting st = true <-> exists fd, in_flight st = [fd])
  /\ (isSubmitting st = false <-> in_flight st = [])
  /\ (length (in_flight st) <= 1)%nat.
Proof.
  intros Hreach.
  destruct (reachable_latch_invariant E st Hreach) as [Hlatch _].
  destruct (isSubmitting st).
  - destruct Hlatch as [fd Hfd]. rewrite Hfd. split; [|split].
    + split; [eauto|reflexivity].
    + split; discriminate.
    + simpl. lia.
  - rewrite Hlatch. split; [|split].
    + split; [discriminate|]. intros [fd Hfd]. discriminate.
    + split; reflexivity.
    + simpl. lia.
Qed.

Lemma reachable_one_call_in_flight_witness :
  isSubmitting (run sample_engine initial_state (fill_form ++ [Submit 42; Submit 43])) = true
  /\ (length (in_flight (run sample_engine initial_state
                           (fill_form ++ [Submit 42; Submit 43]))) <= 1)%nat.
Proof.
  split; [reflexivity|].
  refine (proj2 (proj2 (reachable_one_call_in_flight sample_engine _ _))).
  exists (fill_form ++ [Submit 42; Submit 43]). reflexivity.
Defined.

(** ** Validation *)

(** X2. No reachable state has lost a field of the form, so validation never
    fails on a missing email: it passes or fails with one of the two
    validation messages, whatever the engine. *)
Theorem reachable_validation_outcomes (E : engine) (st : state) :
  reachable E st ->
  (forall k : string, k ∈ field_names -> is_Some (formData st !! k))
  /\ (validateForm E (formData st) = Normal
      \/ validateForm E (formData st) = Throw (ErrorInstance email_error)
      \/ validateForm E (formData st) = Throw (ErrorInstance required_error)).
Proof.
  intros Hreach.
  destruct (reachable_latch_invariant E st Hreach) as [_ Hfields].
  split; [exact Hfields|].
  destruct (Hfields "email" ltac:(by_decide)) as [e He].
  unfold validateForm. rewrite He.
  destruct (includes e "@"); simpl negb; cbv iota zeta; [|right; left; reflexivity].
  destruct (List.filter _ requiredFields); [left|right; right]; reflexivity.
Qed.

Lemma reachable_validation_outcomes_witness :
  is_Some (formData (run sample_engine initial_state
                       [InputChange "nickname" "jd"; Submit 1]) !! "email")
  /\ validateForm sample_engine
       (formData (run sample_engine initial_state [InputChange "nickname" "jd"; Submit 1]))
     = Throw (ErrorInstance email_error).
Proof.
  assert (Hreach : reachable sample_engine
                     (run sample_engine initial_state [InputChange "nickname" "jd"; Submit 1]))
    by (eexists; reflexivity).
  destruct (reachable_validation_outcomes sample_engine _ Hreach) as [Hfields _].
  split; [apply Hfields; by_decide|reflexivity].
Defined.

(** X3. The outcome of validation, for a form whose email is [e]: it fails
    with the email message exactly when [e] has no [@]; it fails with the
    required-fields message exactly when [e] has an [@] and some required
    field is absent or empty; it passes exactly when [e] has an [@] and every
    required field holds a non-empty string. *)
Theorem validateForm_decision_table
    (E : engine) (fd : gmap string string) (e : string) :
  fd !! "email" = Some e ->
  (validateForm E fd = Throw (ErrorInstance email_error) <-> ~ has_char "@" e)
  /\ (validateForm E fd = Throw (ErrorInstance required_error) <->
      has_char "@" e
      /\ exists f, f ∈ requiredFields /\ (fd !! f = None \/ fd !! f = Some ""))
  /\ (validateForm E fd = Normal <->
      has_char "@" e
      /\ forall f, f ∈ requiredFields -> exists v, fd !! f = Some v /\ v <> "").
Proof.
  intros He. split; [|split].
  - split; [|apply validateForm_email; exact He].
    intros Hv Hat. unfold validateForm in Hv. rewrite He in Hv.
    apply includes_char in Hat. rewrite Hat in Hv. simpl negb in Hv.
    cbv iota zeta in Hv.
    destruct (List.filter _ requiredFields); discriminate.
  - split.
    + intros Hv. unfold validateForm in Hv. rewrite He in Hv.
      destruct (includes e "@") eqn:Hinc; [|discriminate].
      split; [apply includes_char; exact Hinc|].
      simpl negb in Hv. cbv iota zeta in Hv.
      destruct (List.filter _ requiredFields) as [|f l] eqn:Hfilter; [discriminate|].
      assert (Hin : In f (List.filter (fun field => negb (truthy (js_get fd field)))
                            requiredFields))
        by (rewrite Hfilter; left; reflexivity).
      apply filter_In in Hin as [Hf Hneg]. apply list_elem_of_In in Hf.
      exists f. split; [exact Hf|].
      unfold js_get in Hneg.
      destruct (fd !! f) as [v|]; [|left; reflexivity].
      right. f_equal. simpl in Hneg.
      destruct (decide (v = "")) as [->|Hne]; [reflexivity|].
      rewrite bool_decide_eq_false_2 in Hneg by exact Hne. discriminate.
    + intros [Hat (f & Hf & Hempty)].
      destruct Hempty as [Hnone|Hempty];
        [|apply (validateForm_required E fd e f); assumption].
      unfold validateForm. rewrite He.
      apply includes_char in Hat. rewrite Hat. simpl negb. cbv iota zeta.
      assert (Hin : In f (List.filter (fun field => negb (truthy (js_get fd field)))
                            requiredFields)).
      { apply filter_In. split; [apply list_elem_of_In; exact Hf|].
        unfold js_get. rewrite Hnone.
        rewrite (bool_decide_eq_false_2 _ (requiredFields_not_inherited f Hf)).
        reflexivity. }
      destruct (List.filter _ requiredFields); [destruct Hin|reflexivity].
  - rewrite validateForm_Normal. split.
    + intros [(e' & He' & Hat) Hall]. split; [congruence|exact Hall].
    + intros [Hat Hall]. split; [eauto|exact Hall].
Qed.

Lemma validateForm_decision_table_witness :
  validateForm sample_engine (formData filled_state) = Normal
  /\ validateForm sample_engine (delete "over18" (formData filled_state))
     = Throw (ErrorInstance required_error).
Proof.
  split; [vm_compute; reflexivity|].
  assert (He : delete "over18" (formData filled_state) !! "email"
               = Some "jane+doe@example.org") by reflexivity.
  apply (proj2 (proj1 (proj2 (validateForm_decision_table sample_engine _ _ He)))).
  split; [by_decide|].
  exists "over18". split; [by_decide|left; reflexivity].
Defined.

(** X4. A field that is not in the required list plays no part in
    validation: writing it, with any value, leaves the outcome as it was. *)
Theorem validateForm_optional_field
    (E : engine) (fd : gmap string string) (k v : string) :
  k ∉ requiredFields ->
  validateForm E (<[k := v]> fd) = validateForm E fd.
Proof.
  intros Hk.
  assert (Hne : forall f, f ∈ requiredFields -> <[k := v]> fd !! f = fd !! f).
  { intros f Hf. apply lookup_insert_ne. intros ->. contradiction. }
  unfold validateForm. rewrite (Hne "email") by by_decide.
  destruct (fd !! "email") as [e|]; [|reflexivity].
  destruct (negb (includes e "@")); [reflexivity|].
  cbv zeta.
  rewrite (filter_ext_in (fun field => negb (truthy (js_get (<[k := v]> fd) field)))
             (fun field => negb (truthy (js_get fd field)))); [reflexivity|].
  intros f Hf. apply list_elem_of_In in Hf. unfold js_get.
  rewrite (Hne f Hf). reflexivity.
Qed.

Lemma validateForm_optional_field_witness :
  validateForm sample_engine
    (formData (handleInputChange "otherLanguages" "" filled_state)) = Normal.
Proof.
  change (formData (handleInputChange "otherLanguages" "" filled_state))
    with (<["otherLanguages" := ""]> (formData filled_state)).
  rewrite (validateForm_optional_field sample_engine _ "otherLanguages" "")
    by by_decide.
  vm_compute. reflexivity.
Defined.

(** ** What is sent, and where the browser goes *)

Lemma build_createContact_valid (E : engine) (fd : gmap string string) (draw : N) :
  validateForm E fd = Normal -> valid_call (build_createContact fd draw).
Proof.
  intros Hv. apply validateForm_Normal in Hv as [(e & He & Hat) Hall].
  destruct (Hall "firstName" ltac:(by_decide)) as (fn & Hfn & Hfn').
  destruct (Hall "lastName" ltac:(by_decide)) as (ln & Hln & Hln').
  destruct (Hall "hoursPerWeek" ltac:(by_decide)) as (h & Hh & Hh').
  exists e, fn, ln, h. unfold build_createContact, js_own. simpl.
  rewrite He, Hfn, Hln, Hh. repeat split; assumption.
Qed.

Lemma validateAndSetFile_stores_acceptable (f g : File) (st : state) :
  uploadedFile (validateAndSetFile f st) = Some g -> acceptable g.
Proof.
  destruct (decide (acceptable f)) as [Hacc|Hnot].
  - rewrite validateAndSetFile_accept by exact Hacc. simpl. congruence.
  - destruct (validateAndSetFile_reject f st Hnot) as [-> _]. discriminate.
Qed.

Lemma initial_submission_invariant (E : engine) :
  submission_invariant E initial_state.
Proof.
  split; [constructor|]. split; [constructor|]. split; discriminate.
Qed.

Lemma step_submission_invariant (E : engine) (st : state) (ev : event) :
  submission_invariant E st -> submission_invariant E (step E st ev).
Proof.
  intros (Hcalls & Hflight & Hloc & Hfile).
  destruct ev as [name value|[f|]| | | |[f|]| |draw| |apiError]; simpl;
    try (split; [|split; [|split]]; assumption).
  - destruct (validateAndSetFile_frame f st) as (_ & _ & Hc & Hf & Hl).
    split; [|split; [|split]]; rewrite ?Hc, ?Hf, ?Hl; try assumption.
    intros g. apply validateAndSetFile_stores_acceptable.
  - destruct (validateAndSetFile_frame f (setIsDragging false st))
      as (_ & _ & Hc & Hf & Hl).
    split; [|split; [|split]]; rewrite ?Hc, ?Hf, ?Hl; try assumption.
    intros g. apply validateAndSetFile_stores_acceptable.
  - split; [|split; [|split]]; try assumption. discriminate.
  - destruct (isSubmitting st) eqn:Hs.
    + rewrite handleSubmit_latched by exact Hs.
      split; [|split; [|split]]; assumption.
    + destruct (validateForm E (formData st)) as [|t] eqn:Hv.
      * rewrite handleSubmit_valid by assumption.
        split; [|split; [|split]]; simpl; try assumption.
        -- apply Forall_app. split; [exact Hcalls|].
           apply Forall_singleton. apply (build_createContact_valid E). exact Hv.
        -- apply Forall_app. split; [exact Hflight|].
           apply Forall_singleton. exact Hv.
      * rewrite (handleSubmit_invalid E draw st t) by assumption.
        destruct t; (split; [|split; [|split]]); assumption.
  - unfold handleSubmit_resolved.
    destruct (in_flight st) as [|fd rest] eqn:Hf;
      [split; [|split; [|split]]; rewrite ?Hf; assumption|].
    apply Forall_cons in Hflight as [Hfd Hrest].
    split; [|split; [|split]]; simpl; try assumption.
    intros url Hurl. injection Hurl as <-.
    apply validateForm_Normal in Hfd as [(e & He & Hat) _].
    exists e. rewrite He. split; [exact Hat|reflexivity].
  - unfold handleSubmit_rejected.
    destruct (in_flight st) as [|fd rest] eqn:Hf;
      [split; [|split; [|split]]; rewrite ?Hf; assumption|].
    apply Forall_cons in Hflight as [Hfd Hrest].
    destruct (catch_apiError E apiError); (split; [|split; [|split]]);
      simpl; assumption.
Qed.

Lemma reachable_submission_invariant (E : engine) (st : state) :
  reachable E st -> submission_invariant E st.
Proof.
  intros [evs ->]. unfold run.
  generalize (initial_submission_invariant E). generalize initial_state.
  induction evs as [|ev evs IH]; intros st0 Hinv; [exact Hinv|].
  apply (IH (step E st0 ev)). apply step_submission_invariant. exact Hinv.
Qed.

(** X5. Whatever the user picks, drops or removes, the file the component
    holds in a reachable state is one that passed the validation: at most
    10 MB, with extension pdf, doc or docx. *)
Theorem reachable_uploadedFile_acceptable (E : engine) (st : state) (f : File) :
  reachable E st -> uploadedFile st = Some f -> acceptable f.
Proof.
  intros Hreach. destruct (reachable_submission_invariant E st Hreach) as (_ & _ & _ & Hfile).
  apply Hfile.
Qed.

Lemma reachable_uploadedFile_acceptable_witness :
  acceptable {| file_name := "Jane.Doe.PDF"; file_size := 4096 |}.
Proof.
  apply (reachable_uploadedFile_acceptable sample_engine
           (run sample_engine initial_state
              [ Drop (Some {| file_name := "Jane.Doe.PDF"; file_size := 4096 |});
                FileChange (Some {| file_name := "notes.txt"; file_size := 1 |});
                DragEnter;
                Drop (Some {| file_name := "Jane.Doe.PDF"; file_size := 4096 |}) ])).
  - eexists. reflexivity.
  - reflexivity.
Defined.

(** X6. Every call issued in a reachable state was built from a form that
    passed validation: its email is a string with an [@], the two names and
    the hours are non-empty strings, the amount is the one derived from
    those hours, the reference starts with EDI and the list is 7. *)
Theorem reachable_calls_valid (E : engine) (st : state) (c : CreateContact) :
  reachable E st -> c ∈ api_calls st -> valid_call c.
Proof.
  intros Hreach Hc.
  destruct (reachable_submission_invariant E st Hreach) as (Hcalls & _).
  rewrite Forall_forall in Hcalls. apply Hcalls. exact Hc.
Qed.

Lemma reachable_calls_valid_witness :
  valid_call (build_createContact (formData filled_state) 7).
Proof.
  apply (reachable_calls_valid sample_engine
           (run sample_engine initial_state
              ([Submit 1] ++ fill_form ++ [Submit 7; Submit 8]))).
  - eexists. reflexivity.
  - vm_compute. apply list_elem_of_here.
Defined.

(** X7. The only addresses the browser is ever sent to are the confirmation
    address followed by the URL-encoded email of a form that passed
    validation. *)
Theorem reachable_location_confirmation (E : engine) (st : state) (url : string) :
  reachable E st -> location_href st = Some url -> confirmation_address url.
Proof.
  intros Hreach.
  destruct (reachable_submission_invariant E st Hreach) as (_ & _ & Hloc & _).
  apply Hloc.
Qed.

Lemma reachable_location_confirmation_witness :
  confirmation_address
    "https://exactdatainput.uk/application-submitted?email=jane%2Bdoe%40example.org".
Proof.
  apply (reachable_location_confirmation sample_engine
           (run sample_engine initial_state (fill_form ++ [Submit 7; ApiResolved]))).
  - eexists. reflexivity.
  - reflexivity.
Defined.

Lemma step_location_href (E : engine) (st : state) (ev : event) :
  is_resolve ev = false -> location_href (step E st ev) = location_href st.
Proof.
  intros Hev.
  destruct ev as [name value|[f|]| | | |[f|]| |draw| |apiError];
    try discriminate Hev; simpl; try reflexivity.
  - apply validateAndSetFile_frame.
  - apply (validateAndSetFile_frame f (setIsDragging false st)).
  - unfold handleSubmit. destruct (isSubmitting st); [reflexivity|]. simpl.
    destruct (validateForm E (formData st)) as [|[m|]]; reflexivity.
  - unfold handleSubmit_rejected. destruct (in_flight st); [reflexivity|].
    destruct (catch_apiError E apiError); reflexivity.
Qed.

(** X8. The browser is sent somewhere only when a call succeeds: over any
    events none of which is the success of a call (failed validations,
    failed calls, edits, file events) the address is left as it was. *)
Theorem no_navigation_without_success (E : engine) (evs : list event) (st : state) :
  Forall (fun ev => is_resolve ev = false) evs ->
  location_href (run E st evs) = location_href st.
Proof.
  revert st. induction evs as [|ev evs IH]; intros st Hevs; [reflexivity|].
  apply Forall_cons in Hevs as [Hev Hevs].
  change (run E st (ev :: evs)) with (run E (step E st ev) evs).
  rewrite IH by exact Hevs. apply step_location_href. exact Hev.
Qed.

Lemma no_navigation_without_success_witness :
  location_href
    (run sample_engine initial_state
       ([Submit 1] ++ fill_form ++ [Submit 2; ApiRejected {| response := None |}]))
  = None.
Proof.
  apply (no_navigation_without_success sample_engine
           ([Submit 1] ++ fill_form ++ [Submit 2; ApiRejected {| response := None |}])
           initial_state).
  repeat constructor.
Defined.

Lemma step_call_count (E : engine) (st : state) (ev : event) :
  (length (api_calls (step E st ev)) + length (in_flight st)
   <= length (api_calls st) + length (in_flight (step E st ev))
      + (if is_settle ev then 1 else 0))%nat.
Proof.
  destruct ev as [name value|[f|]| | | |[f|]| |draw| |apiError]; simpl;
    unfold handleDragOver; try lia.
  - destruct (validateAndSetFile_frame f st) as (_ & _ & -> & -> & _). lia.
  - destruct (validateAndSetFile_frame f (setIsDragging false st))
      as (_ & _ & -> & -> & _). simpl. lia.
  - unfold handleSubmit. destruct (isSubmitting st); [lia|]. simpl.
    destruct (validateForm E (formData st)) as [|[m|]]; simpl;
      rewrite ?length_app; simpl; lia.
  - unfold handleSubmit_resolved. destruct (in_flight st); simpl; lia.
  - unfold handleSubmit_rejected. destruct (in_flight st); [simpl; lia|].
    destruct (catch_apiError E apiError); simpl; lia.
Qed.

Lemma run_call_count (E : engine) (evs : list event) :
  forall st : state,
    (length (api_calls (run E st evs)) + length (in_flight st)
     <= length (api_calls st) + length (in_flight (run E st evs))
        + count_settle evs)%nat.
Proof.
  induction evs as [|ev evs IH]; intros st; [simpl; lia|].
  change (run E st (ev :: evs)) with (run E (step E st ev) evs).
  pose proof (step_call_count E st ev) as Hstep.
  pose proof (IH (step E st ev)) as Hrun.
  unfold count_settle in *. simpl List.filter.
  destruct (is_settle ev); simpl length; lia.
Qed.

(** X9. The calls issued since mount number at most one more than the calls
    that have settled: a further call goes out only after the one before it
    has succeeded or failed. *)
Theorem calls_bounded_by_settled (E : engine) (evs : list event) :
  (length (api_calls (run E initial_state evs)) <= S (count_settle evs))%nat.
Proof.
  pose proof (run_call_count E evs initial_state) as Hcount.
  assert (Hreach : reachable E (run E initial_state evs)) by (exists evs; reflexivity).
  destruct (reachable_latch_invariant E _ Hreach) as [Hlatch _].
  assert (Hone : (length (in_flight (run E initial_state evs)) <= 1)%nat).
  { destruct (isSubmitting (run E initial_state evs)).
    - destruct Hlatch as [fd ->]. simpl. lia.
    - rewrite Hlatch. simpl. lia. }
  simpl in Hcount. lia.
Qed.

Lemma step_formData (E : engine) (st : state) (ev : event) :
  is_input_change ev = false -> formData (step E st ev) = formData st.
Proof.
  intros Hev.
  destruct ev as [name value|[f|]| | | |[f|]| |draw| |apiError];
    try discriminate Hev; simpl; try reflexivity.
  - apply validateAndSetFile_frame.
  - apply (validateAndSetFile_frame f (setIsDragging false st)).
  - unfold handleSubmit. destruct (isSubmitting st); [reflexivity|]. simpl.
    destruct (validateForm E (formData st)) as [|[m|]]; reflexivity.
  - unfold handleSubmit_resolved. destruct (in_flight st); reflexivity.
  - unfold handleSubmit_rejected. destruct (in_flight st); [reflexivity|].
    destruct (catch_apiError E apiError); reflexivity.
Qed.

(** X10. Nothing but an input change alters the form fields: submits, failed
    or successful calls, file and drag events all leave what the applicant
    typed in place. *)
Theorem formData_changed_by_input_only (E : engine) (evs : list event) (st : state) :
  Forall (fun ev => is_input_change ev = false) evs ->
  formData (run E st evs) = formData st.
Proof.
  revert st. induction evs as [|ev evs IH]; intros st Hevs; [reflexivity|].
  apply Forall_cons in Hevs as [Hev Hevs].
  change (run E st (ev :: evs)) with (run E (step E st ev) evs).
  rewrite IH by exact Hevs. apply step_formData. exact Hev.
Qed.

Lemma formData_changed_by_input_only_witness :
  formData
    (run sample_engine filled_state
       [ Submit 3; Drop (Some {| file_name := "cv.exe"; file_size := 9 |});
         ApiRejected {| response := Some {| text := Some sample_body |} |};
         RemoveFile; Submit 4; ApiResolved ])
  = formData filled_state.
Proof.
  apply (formData_changed_by_input_only sample_engine). repeat constructor.
Defined.

(** X11. The uploaded file plays no part in a submission: each of the three
    parts of [handleSubmit] does the same whatever file is held, so the call
    issued, the message shown and the address reached do not depend on it. *)
Theorem submission_ignores_uploadedFile
    (E : engine) (st : state) (u : option File) (draw : N) (apiError : ApiError) :
  handleSubmit E draw (setUploadedFile u st) = setUploadedFile u (handleSubmit E draw st)
  /\ handleSubmit_resolved (setUploadedFile u st)
     = setUploadedFile u (handleSubmit_resolved st)
  /\ handleSubmit_rejected E apiError (setUploadedFile u st)
     = setUploadedFile u (handleSubmit_rejected E apiError st).
Proof.
  split; [|split].
  - unfold handleSubmit. simpl. destruct (isSubmitting st); [reflexivity|].
    destruct (validateForm E (formData st)) as [|[m|]]; reflexivity.
  - unfold handleSubmit_resolved. simpl. destruct (in_flight st); reflexivity.
  - unfold handleSubmit_rejected. simpl. destruct (in_flight st); [reflexivity|].
    destruct (catch_apiError E apiError); reflexivity.
Qed.

(** ** The confirmation address *)

Lemma encodeURIComponent_cons (c : ascii) (s : string) :
  encodeURIComponent (String c s) = encode_char c +:+ encodeURIComponent s.
Proof. reflexivity. Qed.

Lemma encode_char_safe (c : ascii) : all_url_safe (encode_char c) = true.
Proof. destruct c as [[] [] [] [] [] [] [] []]; vm_compute; reflexivity. Qed.

Lemma all_url_safe_app (s t : string) :
  all_url_safe (s +:+ t) = all_url_safe s && all_url_safe t.
Proof.
  induction s as [|a s IH]; [reflexivity|].
  rewrite app_cons. simpl. rewrite IH. apply andb_assoc.
Qed.

Lemma encodeURIComponent_safe (s : string) :
  all_url_safe (encodeURIComponent s) = true.
Proof.
  induction s as [|c s IH]; [reflexivity|].
  rewrite encodeURIComponent_cons, all_url_safe_app, encode_char_safe, IH.
  reflexivity.
Qed.

Lemma all_url_safe_has_char (s : string) (c : ascii) :
  all_url_safe s = true -> has_char c s -> url_safe c = true.
Proof.
  induction s as [|a s IH]; intros Hall Hc.
  - destruct (has_char_empty _ Hc).
  - simpl in Hall. apply andb_true_iff in Hall as [Ha Hs].
    apply has_char_cons in Hc as [->|Hc]; [exact Ha|]. apply IH; assumption.
Qed.

(** X12. The address a successful call leads to is the confirmation address
    followed by a query value made only of unreserved characters and percent
    escapes: whatever the email holds, it brings no ampersand, equals sign,
    hash, question mark, slash, plus or space into the address. *)
Theorem confirmation_query_safe
    (st : state) (fd : gmap string string) (rest : list (gmap string string)) :
  in_flight st = fd :: rest ->
  exists q : string,
    location_href (handleSubmit_resolved st) = Some (confirmation_url +:+ q)
    /\ all_url_safe q = true
    /\ (forall c : ascii,
          c ∈ ["&"; "="; "#"; "?"; "/"; "+"; " "]%char -> ~ has_char c q).
Proof.
  intros Hfl. exists (encodeURIComponent (ToString (fd !! "email"))).
  unfold handleSubmit_resolved. rewrite Hfl. simpl.
  split; [reflexivity|]. split; [apply encodeURIComponent_safe|].
  intros c Hc Hhas.
  pose proof (all_url_safe_has_char _ c (encodeURIComponent_safe _) Hhas) as Hsafe.
  rewrite !elem_of_cons in Hc.
  destruct Hc as [->|[->|[->|[->|[->|[->|[->|Hnil]]]]]]];
    try discriminate Hsafe. destruct (not_elem_of_nil _ Hnil).
Qed.

Lemma confirmation_query_safe_witness :
  exists q : string,
    location_href
      (handleSubmit_resolved
         (handleSubmit sample_engine 5
            (handleInputChange "email" "a&b=c@x.org?d#e" filled_state)))
    = Some (confirmation_url +:+ q)
    /\ all_url_safe q = true.
Proof.
  destruct (confirmation_query_safe
              (handleSubmit sample_engine 5
                 (handleInputChange "email" "a&b=c@x.org?d#e" filled_state))
              _ _ eq_refl) as (q & Hloc & Hsafe & _).
  exists q. split; assumption.
Defined.

Lemma decode_step_encode_char (c : ascii) (r : string) :
  decode_step (encode_char c +:+ r) = Some (c, r).
Proof. destruct c as [[] [] [] [] [] [] [] []]; reflexivity. Qed.

Lemma encodeURIComponent_inj (s1 : string) :
  forall s2 : string,
    encodeURIComponent s1 = encodeURIComponent s2 -> s1 = s2.
Proof.
  induction s1 as [|c1 s1 IH]; intros [|c2 s2] Heq; [reflexivity| | |].
  - apply (f_equal decode_step) in Heq.
    rewrite encodeURIComponent_cons, decode_step_encode_char in Heq. discriminate.
  - apply (f_equal decode_step) in Heq.
    rewrite encodeURIComponent_cons, decode_step_encode_char in Heq. discriminate.
  - apply (f_equal decode_step) in Heq.
    rewrite !encodeURIComponent_cons, !decode_step_encode_char in Heq.
    injection Heq as -> Hrest. f_equal. apply IH. exact Hrest.
Qed.

(** X13. The confirmation address determines the email: two submissions
    with different emails lead to different addresses. *)
Theorem confirmation_address_determines_email
    (st1 st2 : state) (fd1 fd2 : gmap string string)
    (rest1 rest2 : list (gmap string string)) (e1 e2 : string) :
  in_flight st1 = fd1 :: rest1 -> in_flight st2 = fd2 :: rest2 ->
  fd1 !! "email" = Some e1 -> fd2 !! "email" = Some e2 ->
  e1 <> e2 ->
  location_href (handleSubmit_resolved st1) <> location_href (handleSubmit_resolved st2).
Proof.
  intros Hfl1 Hfl2 He1 He2 Hne. unfold handleSubmit_resolved.
  rewrite Hfl1, Hfl2. simpl. rewrite He1, He2. simpl.
  intros Heq. injection Heq as Heq.
  apply Hne. apply encodeURIComponent_inj. exact Heq.
Qed.

Lemma confirmation_address_determines_email_witness :
  location_href
    (handleSubmit_resolved (handleSubmit sample_engine 1 filled_state))
  <> location_href
       (handleSubmit_resolved
          (handleSubmit sample_engine 1
             (handleInputChange "email" "jane doe@example.org" filled_state))).
Proof.
  eapply (confirmation_address_determines_email _ _ _ _ _ _
            "jane+doe@example.org" "jane doe@example.org");
    [reflexivity..|discriminate].
Defined.

(** ** The reference code and the amount *)

Lemma app_snoc_inj (s1 : string) :
  forall (s2 : string) (a b : ascii),
    s1 +:+ String a "" = s2 +:+ String b "" -> s1 = s2 /\ a = b.
Proof.
  induction s1 as [|c1 s1 IH]; intros [|c2 s2] a b Heq.
  - injection Heq as ->. split; reflexivity.
  - rewrite app_cons in Heq. injection Heq as _ Heq.
    destruct s2; discriminate Heq.
  - rewrite app_cons in Heq. injection Heq as _ Heq.
    destruct s1; discriminate Heq.
  - rewrite !app_cons in Heq. injection Heq as -> Heq.
    destruct (IH _ _ _ Heq) as [-> ->]. split; reflexivity.
Qed.

Lemma digit_inj (d d' : N) : d < 10 -> d' < 10 -> digit d = digit d' -> d = d'.
Proof.
  intros Hd Hd' Heq. unfold digit in Heq.
  apply (f_equal N_of_ascii) in Heq.
  rewrite !N_ascii_embedding in Heq by lia. lia.
Qed.

Lemma fixed_width_inj (k : nat) :
  forall n m : N,
    n < 10 ^ N.of_nat k -> m < 10 ^ N.of_nat k ->
    fixed_width k n = fixed_width k m -> n = m.
Proof.
  induction k as [|k IH]; intros n m Hn Hm Heq.
  - change (10 ^ N.of_nat 0) with 1 in Hn, Hm. lia.
  - change (fixed_width (S k) n)
      with (fixed_width k (n / 10) +:+ String (digit (n mod 10)) "") in Heq.
    change (fixed_width (S k) m)
      with (fixed_width k (m / 10) +:+ String (digit (m mod 10)) "") in Heq.
    apply app_snoc_inj in Heq as [Hhigh Hlow].
    replace (N.of_nat (S k)) with (N.succ (N.of_nat k)) in Hn, Hm by lia.
    rewrite N.pow_succ_r' in Hn, Hm.
    apply IH in Hhigh; [|apply N.Div0.div_lt_upper_bound; lia..].
    apply digit_inj in Hlow; [|apply N.mod_lt; lia..].
    rewrite (N.div_mod n 10), (N.div_mod m 10) by lia. congruence.
Qed.

(** X14. Reference codes do not collide by construction: two different draws
    below 100000 give two different codes. *)
Theorem generateReferenceNumber_distinct (d1 d2 : N) :
  d1 < 100000 -> d2 < 100000 -> d1 <> d2 ->
  generateReferenceNumber d1 <> generateReferenceNumber d2.
Proof.
  intros H1 H2 Hne Heq. apply Hne.
  unfold generateReferenceNumber in Heq. cbv zeta in Heq.
  rewrite (padStart_toString 4 d1 H1), (padStart_toString 4 d2 H2) in Heq.
  apply (String.app_inj "EDI") in Heq.
  apply (fixed_width_inj 5); [exact H1|exact H2|exact Heq].
Qed.

Lemma generateReferenceNumber_distinct_witness :
  generateReferenceNumber 123 <> generateReferenceNumber 1230.
Proof. apply generateReferenceNumber_distinct; lia. Defined.

(** X15. Every hours option the form offers has an entry in the amount
    table, at 16.50 pounds an hour: once the applicant has picked the option
    for [h] hours, the request carries that option as HOURS and the pound
    sign followed by 33 h / 2 as AMOUNT. *)
Theorem offered_hours_have_amount (st : state) (h draw : N) :
  h ∈ hours_options ->
  HOURS (attributes
           (build_createContact
              (formData (handleInputChange "hoursPerWeek" (hours_value h) st)) draw))
  = JsString (toString h)
  /\ AMOUNT (attributes
               (build_createContact
                  (formData (handleInputChange "hoursPerWeek" (hours_value h) st)) draw))
     = JsString ("£" +:+ toString (h * 33 / 2)).
Proof.
  intros Hh.
  change (formData (handleInputChange "hoursPerWeek" (hours_value h) st))
    with (<["hoursPerWeek" := hours_value h]> (formData st)).
  unfold build_createContact, js_own. simpl.
  rewrite lookup_insert_eq. simpl ToString.
  split; [reflexivity|].
  unfold hours_options in Hh. rewrite !elem_of_cons in Hh.
  destruct Hh as [->|[->|[->|[->|[->|Hnil]]]]];
    [reflexivity..|destruct (not_elem_of_nil _ Hnil)].
Qed.

Lemma offered_hours_have_amount_witness :
  AMOUNT (attributes
            (build_createContact
               (formData (handleInputChange "hoursPerWeek" (hours_value 30) filled_state))
               9))
  = JsString "£495".
Proof.
  refine (proj2 (offered_hours_have_amount filled_state 30 9 _)). by_decide.
Defined.

(** ** The banner *)

(** X16. A failed call whose response text parses to a value without a
    [message] leaves the empty string as error: no banner is rendered, the
    browser stays where it is and the latch is cleared, so the failure goes
    unreported. *)
Theorem remote_failure_without_message
    (E : engine) (st : state) (apiError : ApiError)
    (fd : gmap string string) (rest : list (gmap string string)) (t : string) :
  in_flight st = fd :: rest ->
  response_text apiError = Some t -> t <> "" ->
  JSON_parse_message E t = MessageAbsent ->
  error (handleSubmit_rejected E apiError st) = Some ""
  /\ banner (handleSubmit_rejected E apiError st) = None
  /\ isSubmitting (handleSubmit_rejected E apiError st) = false
  /\ location_href (handleSubmit_rejected E apiError st) = location_href st.
Proof.
  intros Hfl Ht Hne Hm. unfold banner, handleSubmit_rejected, catch_apiError.
  rewrite Hfl, Ht. rewrite bool_decide_eq_false_2 by exact Hne. rewrite Hm.
  repeat split.
Qed.

Lemma remote_failure_without_message_witness :
  banner
    (handleSubmit_rejected
       {| JSON_parse_message := fun _ => MessageAbsent; TypeError_includes := "" |}
       {| response := Some {| text := Some "{}" |} |}
       (handleSubmit sample_engine 8 filled_state))
  = None.
Proof.
  refine (proj1 (proj2 (remote_failure_without_message _ _ _ _ _ "{}" _ _ _ _)));
    [reflexivity|reflexivity|discriminate|reflexivity].
Defined.

(** ** Files and drags *)

Lemma validateAndSetFile_isDragging (f : File) (st : state) :
  isDragging (validateAndSetFile f st) = isDragging st.
Proof.
  unfold validateAndSetFile.
  destruct (max_file_size <? file_size f); [reflexivity|].
  destruct (negb _); reflexivity.
Qed.

(** X17. A drop is a drag-leave followed by the pick of the same file: it
    always ends the drag highlight, whether a file came with it and whether
    that file was accepted, while picking a file leaves the highlight as it
    is. *)
Theorem handleDrop_leave_then_pick (file : option File) (st : state) :
  handleDrop file st = handleFileChange file (handleDragLeave st)
  /\ isDragging (handleDrop file st) = false
  /\ isDragging (handleFileChange file st) = isDragging st.
Proof.
  split; [destruct file; reflexivity|].
  destruct file as [f|]; simpl; [|split; reflexivity].
  rewrite !validateAndSetFile_isDragging. split; reflexivity.
Qed.

Lemma after_last_decompose (sep : ascii) (s : string) :
  (~ has_char sep s /\ after_last sep s = s)
  \/ exists p, s = p +:+ String sep (after_last sep s).
Proof.
  induction s as [|c s IH].
  - left. split; [apply has_char_empty|reflexivity].
  - simpl. destruct (decide (has_char sep s)) as [Hhas|Hno].
    + rewrite (bool_decide_eq_true_2 _ Hhas). right.
      destruct IH as [[Hno _]|[p Hp]]; [contradiction|].
      exists (String c p). rewrite app_cons. f_equal. exact Hp.
    + rewrite (bool_decide_eq_false_2 _ Hno).
      destruct (decide (c = sep)) as [->|Hne].
      * rewrite bool_decide_eq_true_2 by reflexivity. right. exists "". reflexivity.
      * rewrite bool_decide_eq_false_2 by exact Hne. left.
        split; [|reflexivity]. rewrite has_char_cons. intros [->|H]; tauto.
Qed.

Lemma allowed_extension_no_dot (ext : string) :
  ext ∈ ["pdf"; "doc"; "docx"] -> ~ has_char "." ext.
Proof.
  intros Hext. rewrite !elem_of_cons in Hext.
  destruct Hext as [->|[->|[->|Hnil]]];
    [by_decide..|destruct (not_elem_of_nil _ Hnil)].
Qed.

(** X18. A file is stored exactly when it is at most 10 MB and its
    lower-cased name is pdf, doc or docx, or ends with a dot followed by one
    of the three; so a name that ends with a dot, or whose last dot is
    followed by anything else, is refused. *)
Theorem accepted_iff_name_suffix (f : File) (st : state) :
  uploadedFile (validateAndSetFile f st) = Some f <->
  file_size f <= 10 * 1024 * 1024
  /\ exists ext : string,
       ext ∈ ["pdf"; "doc"; "docx"]
       /\ (toLowerCase (file_name f) = ext
           \/ exists p, toLowerCase (file_name f) = p +:+ String "." ext).
Proof.
  split.
  - intros Hup.
    assert (Hacc : acceptable f).
    { destruct (decide (acceptable f)) as [Hacc|Hnot]; [exact Hacc|].
      destruct (validateAndSetFile_reject f st Hnot) as [Hnone _]. congruence. }
    destruct Hacc as [Hsize Hext]. split; [exact Hsize|].
    exists (extension f). split; [exact Hext|]. unfold extension.
    destruct (after_last_decompose "." (toLowerCase (file_name f)))
      as [[_ Hwhole]|[p Hp]]; [left; symmetry; exact Hwhole|right; eauto].
  - intros [Hsize (ext & Hext & Hname)].
    rewrite validateAndSetFile_accept; [reflexivity|].
    split; [exact Hsize|]. unfold extension.
    pose proof (allowed_extension_no_dot ext Hext) as Hno.
    destruct Hname as [->|[p ->]].
    + rewrite after_last_no_sep by exact Hno. exact Hext.
    + rewrite after_last_app by exact Hno. exact Hext.
Qed.

(** ** Edits *)

(** X19. The form state after a series of edits depends only on the last
    value typed into each field: a second edit of a field replaces the
    first, and edits of different fields can be made in either order. *)
Theorem handleInputChange_last_write_wins
    (st : state) (n1 n2 v1 v2 : string) :
  handleInputChange n1 v2 (handleInputChange n1 v1 st) = handleInputChange n1 v2 st
  /\ (n1 <> n2 ->
      handleInputChange n2 v2 (handleInputChange n1 v1 st)
      = handleInputChange n1 v1 (handleInputChange n2 v2 st)).
Proof.
  unfold handleInputChange, setError, setFormData. simpl. split.
  - rewrite insert_insert_eq. reflexivity.
  - intros Hne. rewrite (insert_insert_ne (formData st) n2 n1 v2 v1) by congruence.
    reflexivity.
Qed.

Lemma handleInputChange_last_write_wins_witness :
  handleInputChange "lastName" "Roe" (handleInputChange "firstName" "Jo" initial_state)
  = handleInputChange "firstName" "Jo" (handleInputChange "lastName" "Roe" initial_state).
Proof.
  apply (proj2 (handleInputChange_last_write_wins initial_state
                  "firstName" "lastName" "Jo" "Roe")).
  discriminate.
Defined.

(** ** The engine *)

Lemma validateForm_engine (E1 E2 : engine) (fd : gmap string string) :
  is_Some (fd !! "email") -> validateForm E1 fd = validateForm E2 fd.
Proof.
  intros [e He]. unfold validateForm. rewrite He. reflexivity.
Qed.

Lemma step_engine (E1 E2 : engine) (st : state) (ev : event) :
  latch_invariant st -> is_reject ev = false -> step E1 st ev = step E2 st ev.
Proof.
  intros [_ Hfields] Hev.
  destruct ev as [name value|file| | | |file| |draw| |apiError];
    try discriminate Hev; try reflexivity.
  simpl. unfold handleSubmit. destruct (isSubmitting st); [reflexivity|].
  simpl. rewrite (validateForm_engine E1 E2); [reflexivity|].
  apply Hfields. by_decide.
Qed.

(** X20. Apart from the message shown for a failed call, nothing the
    component does depends on the JavaScript engine: two engines lead from
    the state at mount to the same state over any events that include no
    failed call.  In particular validation never reaches the engine's own
    error for a missing email. *)
Theorem run_engine_independent (E1 E2 : engine) (evs : list event) :
  Forall (fun ev => is_reject ev = false) evs ->
  run E1 initial_state evs = run E2 initial_state evs.
Proof.
  pose proof (initial_latch_invariant) as Hinv. revert Hinv.
  generalize initial_state.
  induction evs as [|ev evs IH]; intros st Hinv Hevs; [reflexivity|].
  apply Forall_cons in Hevs as [Hev Hevs].
  change (run E1 st (ev :: evs)) with (run E1 (step E1 st ev) evs).
  change (run E2 st (ev :: evs)) with (run E2 (step E2 st ev) evs).
  rewrite <- (step_engine E1 E2 st ev Hinv Hev).
  apply IH; [|exact Hevs]. apply step_latch_invariant. exact Hinv.
Qed.

Lemma run_engine_independent_witness :
  run {| JSON_parse_message := fun _ => MessageAbsent; TypeError_includes := "" |}
    initial_state (Submit 3 :: fill_form ++ [Submit 4; ApiResolved])
  = run sample_engine initial_state (Submit 3 :: fill_form ++ [Submit 4; ApiResolved]).
Proof.
  apply run_engine_independent. repeat constructor.
Defined.
